(** * The modal styles and the memoised map component

    A shallow embedding of [src/components/Modal/styles.js]: the
    interpolations of the [ModalBehind] overlay, the comparison
    [shouldUpdate] handed to [React.memo], and the script loader that the
    [Map] component runs in [useEffect].

    JavaScript values live in a store: objects, arrays and functions are
    heap cells reached through references, so that two property sets can
    share an [options] object and the [delete] of [shouldUpdate] is seen
    through every alias. *)

From stdpp Require Import base option list strings pretty gmap fin_maps.
From Stdlib Require Import ZArith Lia.

Local Open Scope string_scope.

(** ** JavaScript values and the store *)

Definition loc := nat.

(** Numbers are the integers together with [NaN]; [0] and [-0] are one
    value, as they are for [===]. *)
Inductive value :=
  | VUndefined
  | VNull
  | VBool (b : bool)
  | VNum (n : Z)
  | VNaN
  | VStr (s : string)
  | VRef (l : loc).

Global Instance value_eq_dec : EqDecision value.
Proof. solve_decision. Defined.

(** A heap cell. The own enumerable properties of a plain object are kept
    in insertion order, the order in which [Object.keys] lists them. A
    function is its source text, which [toString] returns, and the
    bindings it closes over. *)
Inductive obj :=
  | OPlain (props : list (string * value))
  | OArray (elems : list value)
  | OFun (source : string) (captured : list (string * value)).

Global Instance obj_eq_dec : EqDecision obj.
Proof. solve_decision. Defined.

Abbreviation heap := (gmap loc obj).

(** Completion of a call: a value, or a thrown [TypeError]. The error
    carries the property that was read from [undefined] or [null]. *)
Inductive exn := TypeError (property : string).

Inductive completion (A : Type) :=
  | Normal (a : A)
  | Throw (e : exn).
Arguments Normal {A} a.
Arguments Throw {A} e.

Global Instance exn_eq_dec : EqDecision exn.
Proof. solve_decision. Defined.

Global Instance completion_eq_dec `{EqDecision A} : EqDecision (completion A).
Proof. solve_decision. Defined.

(** *** Property lists *)

Fixpoint lookup_field (k : string) (fs : list (string * value)) : option value :=
  match fs with
  | [] => None
  | (k', v) :: fs' => if decide (k' = k) then Some v else lookup_field k fs'
  end.

(** [object[key]]: a missing property reads as [undefined]. *)
Definition get_field (k : string) (fs : list (string * value)) : value :=
  default VUndefined (lookup_field k fs).

Definition keys (fs : list (string * value)) : list string := fs.*1.

(** [hasOwnProperty.call(object, key)] *)
Definition has_own (k : string) (fs : list (string * value)) : bool :=
  bool_decide (k ∈ keys fs).

(** [delete object[key]] *)
Definition delete_field (k : string) (fs : list (string * value))
  : list (string * value) :=
  filter (λ kv, kv.1 ≠ k) fs.

(** [object[key] = v]: an existing property keeps its place, a new one is
    appended. *)
Fixpoint set_field (k : string) (v : value) (fs : list (string * value))
  : list (string * value) :=
  match fs with
  | [] => [(k, v)]
  | (k', v') :: fs' =>
      if decide (k' = k) then (k, v) :: fs' else (k', v') :: set_field k v fs'
  end.

(** *** Primitive operations *)

(** [v == null] *)
Definition is_nullish (v : value) : bool :=
  match v with VUndefined | VNull => true | _ => false end.

Definition is_nan (v : value) : bool :=
  match v with VNaN => true | _ => false end.

(** [value === other]: identity on references, and [NaN] differs from
    itself. *)
Definition strict_eq (value other : value) : bool :=
  match value with
  | VNaN => false
  | _ => bool_decide (value = other)
  end.

(** Truthiness, as the conditional operator tests it. *)
Definition truthy (v : value) : bool :=
  match v with
  | VUndefined | VNull | VNaN => false
  | VBool b => b
  | VNum n => negb (Z.eqb n 0)
  | VStr s => negb (String.eqb s "")
  | VRef _ => true
  end.

(** [typeof v === 'function'] *)
Definition is_function (h : heap) (v : value) : bool :=
  match v with
  | VRef l => match h !! l with Some (OFun _ _) => true | _ => false end
  | _ => false
  end.

(** lodash's [isObjectLike]: [v != null && typeof v == 'object']. *)
Definition isObjectLike (h : heap) (v : value) : bool :=
  match v with
  | VRef l =>
      match h !! l with
      | Some (OPlain _) | Some (OArray _) => true
      | _ => false
      end
  | _ => false
  end.

Definition deref (h : heap) (v : value) : option obj :=
  match v with VRef l => h !! l | _ => None end.

(** The own properties of the plain object at [l]. *)
Definition own_props (h : heap) (l : loc) : option (list (string * value)) :=
  match h !! l with Some (OPlain fs) => Some fs | _ => None end.

(** [delete base[k]] for a [base] that is neither [undefined] nor [null].
    Only plain objects carry named properties here; on any other base the
    property is absent and the operator leaves everything as it is. *)
Definition delete_property (h : heap) (base : value) (k : string) : heap :=
  match base with
  | VRef l =>
      match h !! l with
      | Some (OPlain fs) => <[l := OPlain (delete_field k fs)]> h
      | _ => h
      end
  | _ => h
  end.

(** [v.toString()] where [shouldUpdate] calls it. Reading [toString] from
    [undefined] or [null] throws; a function answers with its source text.
    The [toString] of the remaining values is not modelled ([None]):
    [shouldUpdate] does not reach it when the keys of an object are
    distinct, see [every_reaches_functions]. *)
Definition toString (h : heap) (v : value) : option (completion string) :=
  match v with
  | VUndefined | VNull => Some (Throw (TypeError "toString"))
  | VRef l =>
      match h !! l with
      | Some (OFun source _) => Some (Normal source)
      | _ => None
      end
  | _ => None
  end.

(** ** The lodash helpers that [shouldUpdate] imports

    [functions], [omit] and [isEqual] as lodash 4 documents them, on the
    values above: primitives, plain objects, arrays and functions. *)

(** [_.functions(object)]: the keys of [object], in key order, under
    which [object[key]] is a function. *)
Definition functions (h : heap) (object : list (string * value)) : list string :=
  filter (λ key, is_function h (get_field key object) = true) (keys object).

(** [_.omit(object, paths)]: a fresh object with the properties of
    [object] that are not listed. Every path handed over by [shouldUpdate]
    is a key of [object], so it is taken as a key and never split at
    dots. *)
Definition omit (object : list (string * value)) (paths : list string)
  : list (string * value) :=
  filter (λ kv, kv.1 ∉ paths) object.

Section isEqual.
(** The comparison of nested values, [equalFunc] in lodash. [None] means
    that it gave no answer. *)
Variable equalFunc : value → value → option bool.

(** The loop of [equalArrays] over two arrays of one length; it breaks
    at the first pair that differs. *)
Fixpoint equalArrays_loop (array other : list value) : option bool :=
    match array, other with
    | arrValue :: array', othValue :: other' =>
        if strict_eq arrValue othValue then equalArrays_loop array' other'
        else match equalFunc arrValue othValue with
             | Some true => equalArrays_loop array' other'
             | r => r
             end
    | _, _ => Some true
    end.

Definition equalArrays (array other : list value) : option bool :=
    if negb (length array =? length other)%nat then Some false
    else equalArrays_loop array other.

(** The second loop of [equalObjects], over the keys of [object]. *)
Fixpoint equalObjects_loop (objProps : list string)
      (object other : list (string * value)) : option bool :=
    match objProps with
    | [] => Some true
    | key :: objProps' =>
        let objValue := get_field key object in
        let othValue := get_field key other in
        if strict_eq objValue othValue
        then equalObjects_loop objProps' object other
        else match equalFunc objValue othValue with
             | Some true => equalObjects_loop objProps' object other
             | r => r
             end
    end.

(** [equalObjects]: the key counts agree, every key of [object] is an
    own key of [other], and the values agree key by key. Both objects
    are plain, so the closing constructor test always passes. *)
Definition equalObjects (object other : list (string * value)) : option bool :=
    let objProps := keys object in
    let othProps := keys other in
    if negb (length objProps =? length othProps)%nat then Some false
    else if negb (forallb (λ key, has_own key other) objProps) then Some false
    else equalObjects_loop objProps object other.
End isEqual.

(** [baseIsEqual] with [baseIsEqualDeep] inlined. [fuel] bounds the
    nesting depth that is explored. lodash also keeps a stack of the pairs
    under comparison to cut cycles; on a store without cycles that stack
    never answers, and it is left out. On a store with a cycle the
    descent below finds no answer where lodash has one: the properties of
    the deep comparison are stated for stores without cycles
    ([ranked]). *)
Fixpoint baseIsEqual (fuel : nat) (h : heap) (value other : value) : option bool :=
  match fuel with
  | O => None
  | S fuel' =>
      if strict_eq value other then Some true
      else if is_nullish value || is_nullish other
              || (negb (isObjectLike h value) && negb (isObjectLike h other))
      then Some (is_nan value && is_nan other)
      else
        match deref h value, deref h other with
        | Some (OArray array), Some (OArray other') =>
            equalArrays (baseIsEqual fuel' h) array other'
        | Some (OPlain object), Some (OPlain other') =>
            equalObjects (baseIsEqual fuel' h) object other'
        | _, _ => Some false
        end
  end.

Definition isEqual (fuel : nat) (h : heap) (value other : value) : option bool :=
  baseIsEqual fuel h value other.

(** [isEqual] applied to the two objects that [omit] has just built. They
    are fresh and distinct plain objects: the identity test fails and
    [equalObjects] decides. Nothing refers to them, so they are not
    entered in the store. *)
Definition isEqual_fresh (fuel : nat) (h : heap)
    (object other : list (string * value)) : option bool :=
  match fuel with
  | O => None
  | S fuel' => equalObjects (baseIsEqual fuel' h) object other
  end.

(** [Array.prototype.every]: stops at the first element for which the
    callback is not [true], and lets a throw through. *)
Fixpoint every (callback : string → option (completion bool)) (array : list string)
  : option (completion bool) :=
  match array with
  | [] => Some (Normal true)
  | fn :: array' =>
      match callback fn with
      | Some (Normal true) => every callback array'
      | r => r
      end
  end.

(** ** [shouldUpdate] *)

(** [fn => prevProps[fn].toString() === nextProps[fn].toString()] *)
Definition same_source (h : heap) (prevProps nextProps : list (string * value))
    (fn : string) : option (completion bool) :=
  match toString h (get_field fn prevProps) with
  | Some (Normal prevText) =>
      match toString h (get_field fn nextProps) with
      | Some (Normal nextText) => Some (Normal (String.eqb prevText nextText))
      | Some (Throw e) => Some (Throw e)
      | None => None
      end
  | Some (Throw e) => Some (Throw e)
  | None => None
  end.

(** The store after [delete prevProps.options.mapTypeId]. *)
Definition after_delete (h : heap) (prevProps : list (string * value)) : heap :=
  delete_property h (get_field "options" prevProps) "mapTypeId".

(** The comparison as the tutorial first gives it, without the deletion;
    it leaves the store as it is. *)
Definition shouldUpdate_plain (fuel : nat) (h : heap) (prevProps nextProps : loc)
  : option (completion bool) :=
  prev ← own_props h prevProps;
  next ← own_props h nextProps;
  let prevFuncs := functions h prev in
  let nextFuncs := functions h next in
  b ← isEqual_fresh fuel h (omit prev prevFuncs) (omit next nextFuncs);
  if b : bool
  then every (same_source h prev next) prevFuncs
  else Some (Normal false).

(** The comparison of the final component, handed to [React.memo]:
    [true] skips the render. [prevProps] and [nextProps] are references to
    the two property sets, plain objects as React builds them. The result
    is the store after the call together with the completion; [None] when
    a property set is not a plain object, when [fuel] is used up, or when
    a [toString] outside the model is reached. *)
Definition shouldUpdate (fuel : nat) (h : heap) (prevProps nextProps : loc)
  : option (heap * completion bool) :=
  prev0 ← own_props h prevProps;
  if is_nullish (get_field "options" prev0)
  then Some (h, Throw (TypeError "mapTypeId"))
  else
    let h' := after_delete h prev0 in
    prev ← own_props h' prevProps;
    next ← own_props h' nextProps;
    let prevFuncs := functions h' prev in
    let nextFuncs := functions h' next in
    b ← isEqual_fresh fuel h' (omit prev prevFuncs) (omit next nextFuncs);
    if b : bool
    then r ← every (same_source h' prev next) prevFuncs; Some (h', r)
    else Some (h', Normal false).

(** ** Deep structural equality, as the specification words it

    Recursive equality over nested objects, arrays and primitives:
    independent of the order of the keys of a mapping, dependent on the
    order of a sequence. A value equals itself; two objects are equal when
    they have the same keys and equal values under each; two arrays when
    they have one length and equal elements at each index. *)
Inductive deep_equal (h : heap) : value → value → Prop :=
  | de_same v : deep_equal h v v
  | de_object l1 l2 a b :
      h !! l1 = Some (OPlain a) →
      h !! l2 = Some (OPlain b) →
      (∀ k, k ∈ keys a ↔ k ∈ keys b) →
      (∀ k, k ∈ keys a → deep_equal h (get_field k a) (get_field k b)) →
      deep_equal h (VRef l1) (VRef l2)
  | de_array l1 l2 a b :
      h !! l1 = Some (OArray a) →
      h !! l2 = Some (OArray b) →
      length a = length b →
      (∀ i x y, a !! i = Some x → b !! i = Some y → deep_equal h x y) →
      deep_equal h (VRef l1) (VRef l2).

(** Deep equality of two property lists, the partitions that [shouldUpdate]
    compares. *)
Definition deep_equal_props (h : heap) (a b : list (string * value)) : Prop :=
  (∀ k, k ∈ keys a ↔ k ∈ keys b) ∧
  (∀ k, k ∈ keys a → deep_equal h (get_field k a) (get_field k b)).

(** The non-callable partition of a property set, and the source text of
    a callable property. *)
Definition non_callable (h : heap) (props : list (string * value))
  : list (string * value) :=
  omit props (functions h props).

Definition source_text (h : heap) (v : value) : option string :=
  match deref h v with
  | Some (OFun source _) => Some source
  | _ => None
  end.

(** Every callable name of [prev] holds functions of one source text in
    [prev] and in [next]. *)
Definition same_callables (h : heap) (prev next : list (string * value)) : Prop :=
  ∀ fn, fn ∈ functions h prev →
    ∃ text, source_text h (get_field fn prev) = Some text
          ∧ source_text h (get_field fn next) = Some text.

(** ** Well-formed stores *)

(** The keys of an object are distinct. *)
Definition distinct_keys (o : obj) : Prop :=
  match o with
  | OPlain fs => NoDup (keys fs)
  | _ => True
  end.

Global Instance distinct_keys_dec o : Decision (distinct_keys o).
Proof. destruct o; simpl; apply _. Defined.

Definition heap_ok (h : heap) : Prop :=
  map_Forall (λ _ o, distinct_keys o) h.

Global Instance heap_ok_dec h : Decision (heap_ok h).
Proof. unfold heap_ok. apply _. Defined.

(** The values an object or an array holds. *)
Definition children (o : obj) : list value :=
  match o with
  | OPlain fs => fs.*2
  | OArray elems => elems
  | OFun _ _ => []
  end.

Definition value_rank (rk : loc → nat) (v : value) : nat :=
  match v with
  | VRef l => S (rk l)
  | _ => 0
  end.

(** A store without cycles: [rk] bounds the nesting depth below each
    cell. *)
Definition ranked (rk : loc → nat) (h : heap) : Prop :=
  map_Forall (λ l o, Forall (λ v, (value_rank rk v ≤ rk l)%nat) (children o)) h.

Global Instance ranked_dec rk h : Decision (ranked rk h).
Proof. unfold ranked. apply _. Defined.

(** ** The overlay [ModalBehind] *)

(** [props => (props.open ? `visible` : `hidden`)] *)
Definition ModalBehind_visibility (props : list (string * value)) : string :=
  if truthy (get_field "open" props) then "visible" else "hidden".

(** [props => (props.open ? `1` : `0`)] *)
Definition ModalBehind_opacity (props : list (string * value)) : string :=
  if truthy (get_field "open" props) then "1" else "0".

(** The style sheet of the overlay: the static text of the template with
    the two interpolations evaluated on [props]. *)
Definition ModalBehind (props : list (string * value)) : list string :=
  [ "position: fixed;";
    "top: 0;";
    "left: 0;";
    "width: 100%;";
    "height: 100%;";
    "background-color: rgba(0, 0, 0, 0.5);";
    "display: grid;";
    "visibility: " ++ ModalBehind_visibility props ++ ";";
    "opacity: " ++ ModalBehind_opacity props ++ ";";
    "transition: 0.5s;";
    "z-index: 1;" ].

(** ** The script loader in the effect of [Map] *)

(** A mounted [Map]: its identity and the properties it was rendered
    with. *)
Record view := { view_id : nat; view_props : list (string * value) }.

Global Instance view_eq_dec : EqDecision view.
Proof. solve_decision. Defined.

(** What the effect does to the outside: a map built on the node of a
    view, and a call of its [onMount]. *)
Inductive action :=
  | NewMap (v : nat)
  | CallOnMount (v : nat).

(** The page: whether [window.google] is defined, the [src] of the script
    elements appended to [document.head], the [load] listeners by script
    index, and the actions so far. *)
Record page := {
  google : bool;
  scripts : list string;
  listeners : list (nat * view);
  actions : list action
}.

(** [onLoad]: build the map, then call [onMount] when it is a function. *)
Definition onLoad (h : heap) (v : view) (p : page) : page :=
  {| google := google p;
     scripts := scripts p;
     listeners := listeners p;
     actions := actions p ++ NewMap (view_id v) ::
       (if is_function h (get_field "onMount" (view_props v))
        then [CallOnMount (view_id v)] else []) |}.

(** The body of the effect. It returns the page and, on the loading
    branch, the listener that the clean-up will remove. *)
Definition Map_effect (api_key : string) (h : heap) (v : view) (p : page)
  : page * option (nat * view) :=
  if negb (google p) then
    let script := length (scripts p) in
    ({| google := google p;
        scripts := scripts p ++
          ["https://maps.googleapis.com/maps/api/js?key=" ++ api_key];
        listeners := listeners p ++ [(script, v)];
        actions := actions p |},
     Some (script, v))
  else (onLoad h v p, None).

(** The clean-up the effect returns: [script.removeEventListener]. *)
Definition Map_cleanup (c : option (nat * view)) (p : page) : page :=
  match c with
  | Some l =>
      {| google := google p;
         scripts := scripts p;
         listeners := filter (λ l', l' ≠ l) (listeners p);
         actions := actions p |}
  | None => p
  end.

(** The browser's part: the script at index [script] has run, which
    defines [window.google], and its [load] event goes to the listeners
    registered on it, in the order of their registration. *)
Definition script_load (h : heap) (script : nat) (p : page) : page :=
  foldl (λ p' l, if decide (l.1 = script) then onLoad h l.2 p' else p')
    {| google := true;
       scripts := scripts p;
       listeners := listeners p;
       actions := actions p |}
    (listeners p).

(** Mounting a view runs its effect. *)
Definition mount (api_key : string) (h : heap) (v : view) (p : page) : page :=
  (Map_effect api_key h v p).1.

(** The number of times the load routine has run: the scripts created
    and appended. *)
Definition loads (p : page) : nat := length (scripts p).

(** ** A page of the tutorial

    The store of a page that renders the map several times. The cells [1]
    and [2] are the property sets of two renders that share one [options]
    object, the default one, and receive two closures of [addMarkers] over
    different links. The map provider has written [mapTypeId] into the
    shared object. The cells from [9] on are property sets of other
    renders: without [onMount], with an [options] object of their own that
    names its [mapTypeId], with [null] or a number for [options]. *)
Definition addMarkers_text : string :=
  "map => { links.forEach((link, index) => { addMarker(map, link, index) }) }".

Definition page_store : heap :=
  list_to_map
    [ (1, OPlain [("options", VRef 3); ("onMount", VRef 5)]);
      (2, OPlain [("options", VRef 3); ("onMount", VRef 6)]);
      (3, OPlain [("center", VRef 4); ("zoom", VNum 5);
                  ("mapTypeId", VStr "roadmap")]);
      (4, OPlain [("lat", VNum 48); ("lng", VNum 8)]);
      (5, OFun addMarkers_text [("links", VRef 7)]);
      (6, OFun addMarkers_text [("links", VRef 8)]);
      (7, OArray []);
      (8, OArray [VStr "https://wikipedia.org/wiki/Area_51"]);
      (9, OPlain [("options", VRef 3)]);
      (10, OPlain [("options", VRef 11)]);
      (11, OPlain [("center", VRef 4); ("zoom", VNum 5);
                   ("mapTypeId", VStr "roadmap")]);
      (12, OPlain [("options", VNull)]);
      (13, OPlain [("options", VNum 5)]);
      (14, OPlain [("options", VRef 3); ("onMount", VRef 15)]);
      (15, OFun "map => map.setZoom(4)" []);
      (16, OPlain [("options", VRef 17)]);
      (17, OPlain [("center", VRef 4); ("zoom", VNum 5);
                   ("mapTypeId", VStr "roadmap")]);
      (18, OPlain [("options", VNull); ("onMount", VRef 5)]);
      (19, OPlain [("options", VNull); ("onMount", VRef 6)]);
      (20, OPlain [("options", VRef 11); ("onMount", VRef 5)]);
      (21, OPlain [("options", VRef 17); ("onMount", VRef 6)]) ].

Definition page_rank (l : loc) : nat :=
  match l with
  | 1 | 2 | 9 | 10 | 14 | 16 | 18 | 19 | 20 | 21 => 2
  | 3 | 11 | 17 => 1
  | _ => 0
  end.

(** A page on which the provider's script has not run, and two views. *)
Definition blank_page : page :=
  {| google := false; scripts := []; listeners := []; actions := [] |}.

Definition first_view : view :=
  {| view_id := 0; view_props := [("options", VRef 3); ("onMount", VRef 5)] |}.

Definition second_view : view :=
  {| view_id := 1; view_props := [("options", VRef 3)] |}.

(** ** Member reads *)

(** [base[k]] for the names that the styles and [addMarkers] read.
    Reading from [undefined] or [null] throws; a plain object answers with
    its property, [undefined] when it has none; the other values carry no
    property of these names. *)
Definition get_member (h : heap) (base : value) (k : string) : completion value :=
  match base with
  | VUndefined | VNull => Throw (TypeError k)
  | VRef l =>
      match h !! l with
      | Some (OPlain fs) => Normal (get_field k fs)
      | _ => Normal VUndefined
      end
  | _ => Normal VUndefined
  end.

(** ** The content box [ModelDiv] *)

(** [props => props.theme.white] *)
Definition ModelDiv_background (h : heap) (props : list (string * value))
  : completion value :=
  get_member h (get_field "theme" props) "white".

(** [props => props.maxWidth || props.theme.maxWidth]: the theme is read
    only when [maxWidth] is falsy. *)
Definition ModelDiv_maxWidth (h : heap) (props : list (string * value))
  : completion value :=
  if truthy (get_field "maxWidth" props)
  then Normal (get_field "maxWidth" props)
  else get_member h (get_field "theme" props) "maxWidth".

(** [props => props.maxHeight || `80vh`] *)
Definition ModelDiv_maxHeight (props : list (string * value)) : value :=
  if truthy (get_field "maxHeight" props)
  then get_field "maxHeight" props
  else VStr "80vh".

(** [props => props.theme.mediumBorderRadius] *)
Definition ModelDiv_borderRadius (h : heap) (props : list (string * value))
  : completion value :=
  get_member h (get_field "theme" props) "mediumBorderRadius".

(** [props => props.theme.black], the colour of the shadow. *)
Definition ModelDiv_boxShadow (h : heap) (props : list (string * value))
  : completion value :=
  get_member h (get_field "theme" props) "black".

(** The values of the five interpolations of the template. *)
Record ModelDiv_values := {
  background : value;
  max_width : value;
  max_height : value;
  border_radius : value;
  box_shadow : value
}.

(** The interpolations of [ModelDiv] in the order of the template, on the
    properties that styled-components hands them: those of the caller
    with [theme] filled in, an object in every case, empty when no theme
    was provided. A member read on a [theme] that is [undefined] or [null]
    would throw and end the evaluation; the component does not meet
    it. *)
Definition ModelDiv (h : heap) (props : list (string * value))
  : completion ModelDiv_values :=
  match ModelDiv_background h props with
  | Throw e => Throw e
  | Normal bg =>
      match ModelDiv_maxWidth h props with
      | Throw e => Throw e
      | Normal mw =>
          let mh := ModelDiv_maxHeight props in
          match ModelDiv_borderRadius h props with
          | Throw e => Throw e
          | Normal br =>
              match ModelDiv_boxShadow h props with
              | Throw e => Throw e
              | Normal bs =>
                  Normal {| background := bg; max_width := mw;
                            max_height := mh; border_radius := br;
                            box_shadow := bs |}
              end
          end
      end
  end.

(** ** [addMarkers] *)

(** A marker as [addMarkers] builds it: the map it is put on, the options
    [position], [label] and [title], and the link that its [click]
    listener closes over. *)
Record marker := {
  marker_map : nat;
  marker_position : value;
  marker_label : string;
  marker_title : value;
  marker_link : value
}.

(** The [click] listener of a marker: [window.location.href = link.url]. *)
Definition marker_click (h : heap) (m : marker) : completion value :=
  get_member h (marker_link m) "url".

(** The callback of [links.forEach] at [index]: the marker, or the throw
    of [link.coords] on a link that is [undefined] or [null]. *)
Definition addMarker (h : heap) (map : nat) (link : value) (index : nat)
  : completion marker :=
  match get_member h link "coords" with
  | Throw e => Throw e
  | Normal position =>
      match get_member h link "title" with
      | Throw e => Throw e
      | Normal title =>
          Normal {| marker_map := map;
                    marker_position := position;
                    marker_label := pretty (index + 1)%nat;
                    marker_title := title;
                    marker_link := link |}
      end
  end.

(** [links.forEach] from [index] on: the markers built, in order, and the
    throw that ended the loop if there was one. *)
Fixpoint addMarkers_from (h : heap) (map : nat) (index : nat) (links : list value)
  : list marker * option exn :=
  match links with
  | [] => ([], None)
  | link :: links' =>
      match addMarker h map link index with
      | Throw e => ([], Some e)
      | Normal m =>
          let '(ms, e) := addMarkers_from h map (S index) links' in
          (m :: ms, e)
      end
  end.

(** [addMarkers(links)(map)], [links] being the elements of the array. *)
Definition addMarkers (h : heap) (links : list value) (map : nat)
  : list marker * option exn :=
  addMarkers_from h map 0 links.

(** ** Pages *)

(** Every listener sits on a script that was appended. *)
Definition page_ok (p : page) : Prop :=
  Forall (λ l : nat * view, (l.1 < length (scripts p))%nat) (listeners p).

Global Instance page_ok_dec p : Decision (page_ok p).
Proof. unfold page_ok. apply _. Defined.

(** A change of [onMount] or of [options] runs the effect again: the
    clean-up of the last run, then the body with the new properties. *)
Definition Map_rerun (api_key : string) (h : heap) (c : option (nat * view))
    (v : view) (p : page) : page * option (nat * view) :=
  Map_effect api_key h v (Map_cleanup c p).

(** The views mounted one after the other. *)
Definition mount_all (api_key : string) (h : heap) (views : list view) (p : page)
  : page :=
  foldl (λ p' v, mount api_key h v p') p views.

(** A theme, and the links of the tutorial: one with a title and an
    address, one with coordinates only. *)
Definition tutorial_store : heap :=
  list_to_map
    [ (1, OPlain [("white", VStr "#fff"); ("black", VStr "#111");
                  ("maxWidth", VStr "50em");
                  ("mediumBorderRadius", VStr "0.5em")]);
      (2, OPlain [("coords", VRef 3);
                  ("title", VStr "Life, the Universe and Area 51");
                  ("url", VStr "https://wikipedia.org/wiki/Area_51")]);
      (3, OPlain [("lat", VNum 42); ("lng", VNum 51)]);
      (4, OPlain [("coords", VRef 3)]) ].

(** Two renders that rebuild their [options]: the cells [1], [2] and [9]
    are property sets with an [options] object each, equal in content,
    and a closure of [addMarkers] or another function for [onMount]. The
    provider has written [mapTypeId] into the [options] of the first
    render. *)
Definition rebuilt_store : heap :=
  list_to_map
    [ (1, OPlain [("options", VRef 3); ("onMount", VRef 5)]);
      (2, OPlain [("options", VRef 4); ("onMount", VRef 6)]);
      (3, OPlain [("center", VRef 7); ("zoom", VNum 5);
                  ("mapTypeId", VStr "roadmap")]);
      (4, OPlain [("center", VRef 8); ("zoom", VNum 5)]);
      (5, OFun addMarkers_text [("links", VRef 11)]);
      (6, OFun addMarkers_text [("links", VRef 12)]);
      (7, OPlain [("lat", VNum 48); ("lng", VNum 8)]);
      (8, OPlain [("lat", VNum 48); ("lng", VNum 8)]);
      (9, OPlain [("options", VRef 4); ("onMount", VRef 10)]);
      (10, OFun "map => map.setZoom(4)" []);
      (11, OArray []);
      (12, OArray [VStr "https://wikipedia.org/wiki/Area_51"]) ].

Definition rebuilt_rank (l : loc) : nat :=
  match l with
  | 1 | 2 | 9 => 3
  | 3 | 4 => 2
  | _ => 0
  end.

(** * Properties *)

(** ** Property lists *)

Lemma lookup_field_elem k fs v : lookup_field k fs = Some v → (k, v) ∈ fs.
Proof.
  induction fs as [|[k' v'] fs IH]; simpl; [done|].
  case_decide as Hk.
  - intros [= ->]. subst k'. left.
  - intros Hl. right. by apply IH.
Qed.

Lemma lookup_field_is_Some k fs : is_Some (lookup_field k fs) ↔ k ∈ keys fs.
Proof.
  unfold keys. induction fs as [|[k' v'] fs IH]; simpl.
  - split; [by intros [? ?] | by intros ?%elem_of_nil].
  - case_decide as Hk.
    + subst k'. split; [intros _; left | eauto].
    + rewrite IH. split; [by right | ].
      intros [Hk'|Hin]%elem_of_cons; [by subst | done].
Qed.

Lemma lookup_field_None k fs : lookup_field k fs = None ↔ k ∉ keys fs.
Proof.
  rewrite <- lookup_field_is_Some, eq_None_not_Some. done.
Qed.

Lemma get_field_absent k fs : k ∉ keys fs → get_field k fs = VUndefined.
Proof. intros Hk%lookup_field_None. unfold get_field. by rewrite Hk. Qed.

Lemma get_field_children k fs :
  k ∈ keys fs → get_field k fs ∈ fs.*2.
Proof.
  intros [v Hv]%lookup_field_is_Some. unfold get_field. rewrite Hv. simpl.
  apply lookup_field_elem in Hv.
  apply list_elem_of_fmap. by exists (k, v).
Qed.

(** Filtering a property list by a test on the keys. *)
Lemma lookup_field_filter (P : string → Prop) `{∀ k, Decision (P k)} k fs :
  lookup_field k (filter (λ kv, P kv.1) fs) =
  if decide (P k) then lookup_field k fs else None.
Proof.
  induction fs as [|[k' v'] fs IH]; simpl.
  - by case_decide.
  - rewrite filter_cons. simpl. destruct (decide (P k')) as [Hk'|Hk']; simpl.
    + destruct (decide (k' = k)) as [->|Hne]; [by destruct (decide (P k))|done].
    + rewrite IH. destruct (decide (k' = k)) as [->|Hne]; [by destruct (decide (P k))|done].
Qed.

Lemma keys_filter (P : string → Prop) `{∀ k, Decision (P k)} fs :
  keys (filter (λ kv, P kv.1) fs) = filter P (keys fs).
Proof.
  unfold keys. induction fs as [|[k' v'] fs IH]; [done|].
  rewrite filter_cons, fmap_cons, filter_cons. simpl.
  destruct (decide (P k')); [rewrite fmap_cons|]; by rewrite IH.
Qed.

Lemma get_field_omit k fs paths :
  k ∉ paths → get_field k (omit fs paths) = get_field k fs.
Proof.
  intros Hk. unfold get_field, omit.
  pose proof (lookup_field_filter (λ k, k ∉ paths) k fs) as Hf.
  cbv beta in Hf. rewrite Hf. by rewrite decide_True.
Qed.

Lemma keys_omit fs paths : keys (omit fs paths) = filter (λ k, k ∉ paths) (keys fs).
Proof. exact (keys_filter (λ k, k ∉ paths) fs). Qed.

Lemma elem_of_keys_omit k fs paths :
  k ∈ keys (omit fs paths) ↔ k ∈ keys fs ∧ k ∉ paths.
Proof. rewrite keys_omit, list_elem_of_filter. tauto. Qed.

Lemma get_field_delete_ne k k' fs :
  k' ≠ k → get_field k' (delete_field k fs) = get_field k' fs.
Proof.
  intros Hk. unfold get_field, delete_field.
  pose proof (lookup_field_filter (λ k0, k0 ≠ k) k' fs) as Hf.
  cbv beta in Hf. rewrite Hf. by rewrite decide_True.
Qed.

Lemma get_field_delete_eq k fs : get_field k (delete_field k fs) = VUndefined.
Proof.
  unfold get_field, delete_field.
  pose proof (lookup_field_filter (λ k0, k0 ≠ k) k fs) as Hf.
  cbv beta in Hf. rewrite Hf. by rewrite decide_False by auto.
Qed.

Lemma keys_delete_field k fs :
  keys (delete_field k fs) = filter (λ k', k' ≠ k) (keys fs).
Proof. exact (keys_filter (λ k0, k0 ≠ k) fs). Qed.

Lemma NoDup_keys_delete k fs : NoDup (keys fs) → NoDup (keys (delete_field k fs)).
Proof. rewrite keys_delete_field. apply NoDup_filter. Qed.

Lemma NoDup_keys_omit fs paths : NoDup (keys fs) → NoDup (keys (omit fs paths)).
Proof. rewrite keys_omit. apply NoDup_filter. Qed.

Lemma children_delete_field k fs v :
  v ∈ (delete_field k fs).*2 → v ∈ fs.*2.
Proof.
  intros [[k' v'] [-> Hin]]%list_elem_of_fmap.
  apply list_elem_of_filter in Hin as [_ Hin].
  apply list_elem_of_fmap. by exists (k', v').
Qed.

Lemma delete_set_field k v fs :
  delete_field k (set_field k v fs) = delete_field k fs.
Proof.
  unfold delete_field. induction fs as [|[k' v'] fs IH]; simpl.
  - by rewrite filter_cons_False by (simpl; auto).
  - case_decide as Hk.
    + subst k'. by rewrite !filter_cons_False by (simpl; auto).
    + rewrite !filter_cons_True by done. by rewrite IH.
Qed.

Lemma get_field_set_ne k k' v fs :
  k' ≠ k → get_field k' (set_field k v fs) = get_field k' fs.
Proof.
  intros Hne. unfold get_field. f_equal.
  induction fs as [|[k0 v0] fs IH]; simpl.
  - by rewrite decide_False by done.
  - destruct (decide (k0 = k)) as [->|Hk0]; simpl.
    + by rewrite !decide_False by done.
    + by rewrite IH.
Qed.

Lemma get_field_set_eq k v fs : get_field k (set_field k v fs) = v.
Proof.
  unfold get_field. induction fs as [|[k0 v0] fs IH]; simpl.
  - by rewrite decide_True.
  - destruct (decide (k0 = k)) as [->|Hk0]; simpl.
    + by rewrite decide_True.
    + by rewrite decide_False.
Qed.

Lemma keys_set_field_present k v fs :
  k ∈ keys fs → keys (set_field k v fs) = keys fs.
Proof.
  unfold keys. induction fs as [|[k0 v0] fs IH]; simpl.
  - by intros ?%elem_of_nil.
  - destruct (decide (k0 = k)) as [->|Hk0]; simpl; [done|].
    intros [?|Hin]%elem_of_cons; [congruence|].
    f_equal. by apply IH.
Qed.

Lemma keys_same_length (ka kb : list string) :
  NoDup ka → NoDup kb → (∀ k, k ∈ ka ↔ k ∈ kb) → length ka = length kb.
Proof.
  intros Ha Hb Hiff. apply Permutation_length. by apply NoDup_Permutation.
Qed.

Lemma keys_same_set (ka kb : list string) :
  NoDup ka → length ka = length kb → (∀ k, k ∈ ka → k ∈ kb) →
  ∀ k, k ∈ ka ↔ k ∈ kb.
Proof.
  intros Ha Hlen Hsub k.
  assert (ka ≡ₚ kb) as Hp.
  { apply submseteq_length_Permutation; [by apply NoDup_submseteq | lia]. }
  by rewrite Hp.
Qed.

(** ** Strict equality and the comparison loops *)

Lemma strict_eq_true v o : strict_eq v o = true → v = o.
Proof.
  unfold strict_eq. destruct v; try done; by intros ?%bool_decide_eq_true.
Qed.

Lemma strict_eq_refl v : v ≠ VNaN → strict_eq v v = true.
Proof.
  unfold strict_eq. destruct v; try done; intros _; by apply bool_decide_eq_true.
Qed.

Lemma baseIsEqual_refl fuel h v : baseIsEqual (S fuel) h v v = Some true.
Proof.
  simpl. destruct (decide (v = VNaN)) as [->|Hv]; [done|].
  by rewrite strict_eq_refl.
Qed.

Section loops.
Variable equalFunc : value → value → option bool.

Lemma equalArrays_loop_true array other :
  equalArrays_loop equalFunc array other = Some true ↔
  ∀ i x y, array !! i = Some x → other !! i = Some y →
    strict_eq x y = true ∨ equalFunc x y = Some true.
Proof.
  revert other. induction array as [|x array IH]; intros [|y other]; simpl;
    try (split; [intros _ i x' y' Hx Hy; by destruct i | done]).
  split.
  - intros Hl [|i] x' y' Hx Hy; simpl in *.
    + injection Hx as <-. injection Hy as <-.
      destruct (strict_eq x y); [by left|].
      destruct (equalFunc x y) as [[]|]; [by right|done|done].
    + apply (IH other) with i; [|done|done].
      destruct (strict_eq x y); [done|].
      by destruct (equalFunc x y) as [[]|].
  - intros Hall.
    assert (equalArrays_loop equalFunc array other = Some true) as Hrest.
    { apply IH. intros i. apply (Hall (S i)). }
    destruct (Hall 0 x y eq_refl eq_refl) as [->| ->]; [done|].
    by destruct (strict_eq x y).
Qed.

Lemma equalArrays_loop_false array other :
  equalArrays_loop equalFunc array other = Some false →
  ∃ i x y, array !! i = Some x ∧ other !! i = Some y ∧
    strict_eq x y = false ∧ equalFunc x y = Some false.
Proof.
  revert other. induction array as [|x array IH]; intros [|y other]; simpl;
    try done.
  destruct (strict_eq x y) eqn:Hs.
  - intros (i & x' & y' & ?)%IH. by exists (S i), x', y'.
  - destruct (equalFunc x y) as [[]|] eqn:He; [|intros _|done].
    + intros (i & x' & y' & ?)%IH. by exists (S i), x', y'.
    + by exists 0, x, y.
Qed.

Lemma equalObjects_loop_true objProps object other :
  equalObjects_loop equalFunc objProps object other = Some true ↔
  ∀ k, k ∈ objProps →
    strict_eq (get_field k object) (get_field k other) = true
    ∨ equalFunc (get_field k object) (get_field k other) = Some true.
Proof.
  induction objProps as [|key objProps IH]; simpl.
  - split; [intros _ k Hk; by apply elem_of_nil in Hk | done].
  - split.
    + intros Hl k [->|Hk]%elem_of_cons.
      * destruct (strict_eq _ _); [by left|].
        destruct (equalFunc _ _) as [[]|]; [by right|done|done].
      * apply IH; [|done].
        destruct (strict_eq _ _); [done|].
        by destruct (equalFunc _ _) as [[]|].
    + intros Hall.
      assert (equalObjects_loop equalFunc objProps object other = Some true)
        as Hrest.
      { apply IH. intros k Hk. apply Hall. by right. }
      destruct (Hall key) as [->| ->]; [by left|done|].
      by destruct (strict_eq _ _).
Qed.

Lemma equalObjects_loop_false objProps object other :
  equalObjects_loop equalFunc objProps object other = Some false →
  ∃ k, k ∈ objProps ∧
    strict_eq (get_field k object) (get_field k other) = false ∧
    equalFunc (get_field k object) (get_field k other) = Some false.
Proof.
  induction objProps as [|key objProps IH]; simpl; [done|].
  destruct (strict_eq _ _) eqn:Hs.
  - intros (k & ? & ?)%IH. exists k. split; [by right|done].
  - destruct (equalFunc _ _) as [[]|] eqn:He; [|intros _|done].
    + intros (k & ? & ?)%IH. exists k. split; [by right|done].
    + exists key. split; [by left|done].
Qed.

Lemma forallb_has_own objProps other :
  forallb (λ key, has_own key other) objProps = true ↔
  ∀ k, k ∈ objProps → k ∈ keys other.
Proof.
  rewrite forallb_forall. unfold has_own. split.
  - intros Hall k Hk. apply list_elem_of_In in Hk.
    by apply Hall, bool_decide_eq_true in Hk.
  - intros Hall k Hk. apply bool_decide_eq_true, Hall. by apply list_elem_of_In.
Qed.

Lemma forallb_has_own_false objProps other :
  forallb (λ key, has_own key other) objProps = false →
  ∃ k, k ∈ objProps ∧ k ∉ keys other.
Proof.
  induction objProps as [|key objProps IH]; simpl; [done|].
  unfold has_own at 1. case_bool_decide as Hk; simpl.
  - intros (k & ? & ?)%IH. exists k. split; [by right|done].
  - intros _. exists key. split; [by left|done].
Qed.

Lemma equalObjects_true object other :
  equalObjects equalFunc object other = Some true ↔
  length (keys object) = length (keys other) ∧
  (∀ k, k ∈ keys object → k ∈ keys other) ∧
  (∀ k, k ∈ keys object →
    strict_eq (get_field k object) (get_field k other) = true
    ∨ equalFunc (get_field k object) (get_field k other) = Some true).
Proof.
  unfold equalObjects.
  destruct (length (keys object) =? length (keys other))%nat eqn:Hlen; simpl.
  - apply Nat.eqb_eq in Hlen.
    destruct (forallb _ _) eqn:Hown; simpl.
    + rewrite equalObjects_loop_true.
      pose proof (proj1 (forallb_has_own _ _) Hown). tauto.
    + split; [done|]. intros (_ & Hsub & _).
      apply (proj2 (forallb_has_own _ _)) in Hsub. congruence.
  - apply Nat.eqb_neq in Hlen. split; [done|tauto].
Qed.

Lemma equalObjects_false object other :
  equalObjects equalFunc object other = Some false →
  length (keys object) ≠ length (keys other)
  ∨ (∃ k, k ∈ keys object ∧ k ∉ keys other)
  ∨ (∃ k, k ∈ keys object ∧
       strict_eq (get_field k object) (get_field k other) = false ∧
       equalFunc (get_field k object) (get_field k other) = Some false).
Proof.
  unfold equalObjects.
  destruct (length (keys object) =? length (keys other))%nat eqn:Hlen; simpl.
  - destruct (forallb _ _) eqn:Hown; simpl.
    + intros ?%equalObjects_loop_false. by right; right.
    + intros _. right; left.
      by apply forallb_has_own_false.
  - apply Nat.eqb_neq in Hlen. by left.
Qed.

Lemma equalArrays_true array other :
  equalArrays equalFunc array other = Some true ↔
  length array = length other ∧
  ∀ i x y, array !! i = Some x → other !! i = Some y →
    strict_eq x y = true ∨ equalFunc x y = Some true.
Proof.
  unfold equalArrays.
  destruct (length array =? length other)%nat eqn:Hlen; simpl.
  - apply Nat.eqb_eq in Hlen. rewrite equalArrays_loop_true. tauto.
  - apply Nat.eqb_neq in Hlen. split; [done|tauto].
Qed.

Lemma equalArrays_false array other :
  equalArrays equalFunc array other = Some false →
  length array ≠ length other
  ∨ ∃ i x y, array !! i = Some x ∧ other !! i = Some y ∧
      strict_eq x y = false ∧ equalFunc x y = Some false.
Proof.
  unfold equalArrays.
  destruct (length array =? length other)%nat eqn:Hlen; simpl.
  - intros ?%equalArrays_loop_false. by right.
  - apply Nat.eqb_neq in Hlen. by left.
Qed.
End loops.

(** ** More fuel keeps an answer *)

Section loops_mono.
Variables equalFunc1 equalFunc2 : value → value → option bool.
Hypothesis equalFunc_le :
  ∀ x y b, equalFunc1 x y = Some b → equalFunc2 x y = Some b.

Lemma equalArrays_loop_mono array other b :
  equalArrays_loop equalFunc1 array other = Some b →
  equalArrays_loop equalFunc2 array other = Some b.
Proof.
  revert other. induction array as [|x array IH]; intros [|y other]; simpl;
    try done.
  destruct (strict_eq x y); [apply IH|].
  destruct (equalFunc1 x y) as [[]|] eqn:He; [| |done];
    rewrite (equalFunc_le _ _ _ He); [apply IH|done].
Qed.

Lemma equalObjects_loop_mono objProps object other b :
  equalObjects_loop equalFunc1 objProps object other = Some b →
  equalObjects_loop equalFunc2 objProps object other = Some b.
Proof.
  induction objProps as [|key objProps IH]; simpl; [done|].
  destruct (strict_eq _ _); [apply IH|].
  destruct (equalFunc1 _ _) as [[]|] eqn:He; [| |done];
    rewrite (equalFunc_le _ _ _ He); [apply IH|done].
Qed.

Lemma equalArrays_mono array other b :
  equalArrays equalFunc1 array other = Some b →
  equalArrays equalFunc2 array other = Some b.
Proof.
  unfold equalArrays. destruct (negb _); [done|apply equalArrays_loop_mono].
Qed.

Lemma equalObjects_mono object other b :
  equalObjects equalFunc1 object other = Some b →
  equalObjects equalFunc2 object other = Some b.
Proof.
  unfold equalObjects. destruct (negb _); [done|].
  destruct (negb _); [done|apply equalObjects_loop_mono].
Qed.
End loops_mono.

Lemma baseIsEqual_mono fuel fuel' h v o b :
  (fuel ≤ fuel')%nat →
  baseIsEqual fuel h v o = Some b → baseIsEqual fuel' h v o = Some b.
Proof.
  revert fuel' v o b. induction fuel as [|fuel IH]; intros fuel' v o b Hle;
    [done|].
  destruct fuel' as [|fuel']; [lia|]. simpl.
  destruct (strict_eq v o); [done|].
  destruct (_ || _); [done|].
  assert (∀ x y c, baseIsEqual fuel h x y = Some c →
                   baseIsEqual fuel' h x y = Some c) as Hrec.
  { intros x y c. apply IH. lia. }
  destruct (deref h v) as [[a|a|? ?]|]; try done;
    destruct (deref h o) as [[a'|a'|? ?]|]; try done.
  - by apply equalObjects_mono.
  - by apply equalArrays_mono.
Qed.

Lemma isEqual_fresh_mono fuel fuel' h object other b :
  (fuel ≤ fuel')%nat →
  isEqual_fresh fuel h object other = Some b →
  isEqual_fresh fuel' h object other = Some b.
Proof.
  intros Hle. destruct fuel as [|fuel]; [done|].
  destruct fuel' as [|fuel']; [lia|]. simpl.
  apply equalObjects_mono. intros x y c. apply baseIsEqual_mono. lia.
Qed.

(** ** [isEqual] decides deep equality *)

Lemma heap_ok_lookup h l fs :
  heap_ok h → h !! l = Some (OPlain fs) → NoDup (keys fs).
Proof. intros Hok Hl. exact (map_Forall_lookup_1 _ _ _ _ Hok Hl). Qed.

(** [baseIsEqual] by the shape of its arguments. *)
Lemma baseIsEqual_unfold fuel h v o :
  baseIsEqual (S fuel) h v o =
  if strict_eq v o then Some true
  else match v, o with
       | VRef l1, VRef l2 =>
           match h !! l1, h !! l2 with
           | Some (OPlain a), Some (OPlain b) =>
               equalObjects (baseIsEqual fuel h) a b
           | Some (OArray a), Some (OArray b) =>
               equalArrays (baseIsEqual fuel h) a b
           | _, _ => Some false
           end
       | _, _ => Some (is_nan v && is_nan o)
       end.
Proof.
  simpl. destruct (strict_eq v o); [done|].
  destruct v as [| | | | | |l1], o as [| | | | | |l2]; simpl; try done;
    try (by destruct (h !! l2) as [[]|]);
    try (by destruct (h !! l1) as [[]|]).
  destruct (h !! l1) as [[]|], (h !! l2) as [[]|]; done.
Qed.

Lemma baseIsEqual_sound fuel h v o :
  heap_ok h → baseIsEqual fuel h v o = Some true → deep_equal h v o.
Proof.
  intros Hok. revert v o. induction fuel as [|fuel IH]; intros v o; [done|].
  rewrite baseIsEqual_unfold. destruct (strict_eq v o) eqn:Hs.
  { intros _. apply strict_eq_true in Hs as ->. constructor. }
  assert (∀ x y, strict_eq x y = true ∨ baseIsEqual fuel h x y = Some true →
                 deep_equal h x y) as Hagree.
  { intros x y [->%strict_eq_true|Hxy]; [constructor|by apply IH]. }
  destruct v as [| | | | | |l1], o as [| | | | | |l2]; simpl; try done.
  { intros _. constructor. }
  destruct (h !! l1) as [[a|a|? ?]|] eqn:H1; try done;
    destruct (h !! l2) as [[b|b|? ?]|] eqn:H2; try done.
  - intros (Hlen & Hsub & Hval)%equalObjects_true.
    apply de_object with a b; [done|done| |].
    + apply keys_same_set; [by eapply heap_ok_lookup|done|done].
    + intros k Hk. by apply Hagree, Hval.
  - intros (Hlen & Hval)%equalArrays_true.
    apply de_array with a b; [done|done|done|].
    intros i x y Hx Hy. by eapply Hagree, Hval.
Qed.

Lemma baseIsEqual_refute fuel h v o :
  heap_ok h → baseIsEqual fuel h v o = Some false → ¬ deep_equal h v o.
Proof.
  intros Hok. revert v o. induction fuel as [|fuel IH]; intros v o; [done|].
  rewrite baseIsEqual_unfold. destruct (strict_eq v o) eqn:Hs; [done|].
  intros Hb Hde. destruct Hde as [v|l1 l2 a b H1 H2 Hkeys Hval|l1 l2 a b H1 H2 Hlen Hval].
  - destruct (decide (v = VNaN)) as [->|Hv]; [done|].
    by rewrite strict_eq_refl in Hs.
  - rewrite H1, H2 in Hb.
    apply equalObjects_false in Hb as [Hlen|[(k & Hk & Hnk)|(k & Hk & _ & Hf)]].
    + apply Hlen, keys_same_length; [by eapply heap_ok_lookup..|done].
    + by apply Hnk, Hkeys.
    + by apply (IH _ _ Hf), Hval.
  - rewrite H1, H2 in Hb.
    apply equalArrays_false in Hb as [Hne|(i & x & y & Hx & Hy & _ & Hf)];
      [done|].
    by apply (IH _ _ Hf), (Hval i).
Qed.

Lemma uniform_fuel {X} (P : nat → X → Prop) (xs : list X) :
  (∀ n m x, (n ≤ m)%nat → P n x → P m x) →
  (∀ x, x ∈ xs → ∃ n, P n x) →
  ∃ n, ∀ x, x ∈ xs → P n x.
Proof.
  intros Hmono. induction xs as [|x xs IH]; intros Hall.
  - exists 0. by intros x ?%elem_of_nil.
  - destruct IH as [n Hn]; [intros y Hy; apply Hall; by right|].
    destruct (Hall x) as [m Hm]; [by left|].
    exists (n `max` m). intros y [->|Hy]%elem_of_cons.
    + apply Hmono with m; [lia|done].
    + apply Hmono with n; [lia|by apply Hn].
Qed.

Lemma baseIsEqual_complete h v o :
  heap_ok h → deep_equal h v o → ∃ fuel, baseIsEqual fuel h v o = Some true.
Proof.
  intros Hok. induction 1 as [v|l1 l2 a b H1 H2 Hkeys _ IH|l1 l2 a b H1 H2 Hlen _ IH].
  - exists 1. apply baseIsEqual_refl.
  - destruct (uniform_fuel
      (λ n k, baseIsEqual n h (get_field k a) (get_field k b) = Some true)
      (keys a)) as [n Hn]; [|done|].
    { intros n m k Hle. by apply baseIsEqual_mono. }
    exists (S n). rewrite baseIsEqual_unfold.
    destruct (strict_eq _ _); [done|]. rewrite H1, H2.
    apply equalObjects_true. split_and!.
    + apply keys_same_length; [by eapply heap_ok_lookup..|done].
    + intros k. apply Hkeys.
    + intros k Hk. right. by apply Hn.
  - destruct (uniform_fuel
      (λ n i, ∀ x y, a !! i = Some x → b !! i = Some y →
                     baseIsEqual n h x y = Some true)
      (seq 0 (length a))) as [n Hn].
    { intros n m i Hle Hi x y Hx Hy. apply baseIsEqual_mono with n; eauto. }
    { intros i _.
      destruct (a !! i) as [x|] eqn:Hx; [|by exists 0].
      destruct (b !! i) as [y|] eqn:Hy; [|by exists 0].
      destruct (IH i x y Hx Hy) as [n Hn]. exists n.
      by intros ? ? [= <-] [= <-]. }
    exists (S n). rewrite baseIsEqual_unfold.
    destruct (strict_eq _ _); [done|]. rewrite H1, H2.
    apply equalArrays_true. split; [done|].
    intros i x y Hx Hy. right. apply (Hn i); [|done|done].
    apply elem_of_seq. apply lookup_lt_Some in Hx. lia.
Qed.

(** The comparison of the two partitions against deep equality of
    property lists. *)
Lemma isEqual_fresh_sound fuel h a b :
  heap_ok h → NoDup (keys a) →
  isEqual_fresh fuel h a b = Some true → deep_equal_props h a b.
Proof.
  intros Hok Ha. destruct fuel as [|fuel]; [done|]. simpl.
  intros (Hlen & Hsub & Hval)%equalObjects_true. split.
  - by apply keys_same_set.
  - intros k Hk. destruct (Hval k Hk) as [->%strict_eq_true|Hxy];
      [constructor|by eapply baseIsEqual_sound].
Qed.

Lemma isEqual_fresh_refute fuel h a b :
  heap_ok h → NoDup (keys a) → NoDup (keys b) →
  isEqual_fresh fuel h a b = Some false → ¬ deep_equal_props h a b.
Proof.
  intros Hok Ha Hb. destruct fuel as [|fuel]; [done|]. simpl.
  intros Hf [Hkeys Hval].
  apply equalObjects_false in Hf as [Hlen|[(k & Hk & Hnk)|(k & Hk & _ & Hf)]].
  - by apply Hlen, keys_same_length.
  - by apply Hnk, Hkeys.
  - by apply (baseIsEqual_refute _ _ _ _ Hok Hf), Hval.
Qed.

Lemma isEqual_fresh_complete h a b :
  heap_ok h → NoDup (keys a) → NoDup (keys b) →
  deep_equal_props h a b → ∃ fuel, isEqual_fresh fuel h a b = Some true.
Proof.
  intros Hok Ha Hb [Hkeys Hval].
  destruct (uniform_fuel
    (λ n k, baseIsEqual n h (get_field k a) (get_field k b) = Some true)
    (keys a)) as [n Hn].
  { intros n m k Hle. by apply baseIsEqual_mono. }
  { intros k Hk. by apply baseIsEqual_complete, Hval. }
  exists (S n). simpl. apply equalObjects_true. split_and!.
  - by apply keys_same_length.
  - intros k. apply Hkeys.
  - intros k Hk. right. by apply Hn.
Qed.

(** ** Stores without cycles: [isEqual] answers *)

Section loops_total.
Variable equalFunc : value → value → option bool.

Lemma equalArrays_loop_total array other :
  (∀ x y, x ∈ array → is_Some (equalFunc x y)) →
  is_Some (equalArrays_loop equalFunc array other).
Proof.
  revert other. induction array as [|x array IH]; intros [|y other] Hall;
    simpl; try done.
  assert (is_Some (equalArrays_loop equalFunc array other)) as Hrest.
  { apply IH. intros x' y' Hx'. apply Hall. by right. }
  destruct (strict_eq x y); [done|].
  destruct (Hall x y) as [[] ->]; [by left|done|done].
Qed.

Lemma equalObjects_loop_total objProps object other :
  (∀ k y, k ∈ objProps → is_Some (equalFunc (get_field k object) y)) →
  is_Some (equalObjects_loop equalFunc objProps object other).
Proof.
  induction objProps as [|key objProps IH]; intros Hall; simpl; [done|].
  assert (is_Some (equalObjects_loop equalFunc objProps object other))
    as Hrest.
  { apply IH. intros k y Hk. apply Hall. by right. }
  destruct (strict_eq _ _); [done|].
  destruct (Hall key (get_field key other)) as [[] ->]; [by left|done|done].
Qed.

Lemma equalObjects_total object other :
  (∀ x y, x ∈ object.*2 → is_Some (equalFunc x y)) →
  is_Some (equalObjects equalFunc object other).
Proof.
  intros Hall. unfold equalObjects. destruct (negb _); [done|].
  destruct (negb _); [done|]. apply equalObjects_loop_total.
  intros k y Hk. by apply Hall, get_field_children.
Qed.

Lemma equalArrays_total array other :
  (∀ x y, x ∈ array → is_Some (equalFunc x y)) →
  is_Some (equalArrays equalFunc array other).
Proof.
  intros Hall. unfold equalArrays. destruct (negb _); [done|].
  by apply equalArrays_loop_total.
Qed.
End loops_total.

Lemma ranked_children rk h l o x :
  ranked rk h → h !! l = Some o → x ∈ children o →
  (value_rank rk x ≤ rk l)%nat.
Proof.
  intros Hr Hl Hx. pose proof (map_Forall_lookup_1 _ _ _ _ Hr Hl) as Hall.
  simpl in Hall. rewrite Forall_forall in Hall. by apply Hall.
Qed.

Lemma baseIsEqual_total rk h d v o :
  ranked rk h → (value_rank rk v ≤ d)%nat →
  is_Some (baseIsEqual (S d) h v o).
Proof.
  intros Hr. revert v o. induction d as [|d IH]; intros v o Hv;
    rewrite baseIsEqual_unfold; (destruct (strict_eq v o); [done|]);
    destruct v as [| | | | | |l1], o as [| | | | | |l2]; simpl in *;
    try done; try lia.
  destruct (h !! l1) as [[a|a|? ?]|] eqn:H1; try done;
    destruct (h !! l2) as [[b|b|? ?]|] eqn:H2; try done.
  - apply equalObjects_total. intros x y Hx. apply IH.
    pose proof (ranked_children rk h l1 (OPlain a) x Hr H1 Hx). lia.
  - apply equalArrays_total. intros x y Hx. apply IH.
    pose proof (ranked_children rk h l1 (OArray a) x Hr H1 Hx). lia.
Qed.

Lemma isEqual_fresh_total rk h d object other :
  ranked rk h → (∀ x, x ∈ object.*2 → (value_rank rk x ≤ d)%nat) →
  is_Some (isEqual_fresh (S (S d)) h object other).
Proof.
  intros Hr Hd. simpl isEqual_fresh. apply equalObjects_total.
  intros x y Hx. apply baseIsEqual_total with rk; [done|by apply Hd].
Qed.

(** ** The deletion step *)

Lemma delete_property_lookup_ne h v k l :
  v ≠ VRef l → delete_property h v k !! l = h !! l.
Proof.
  intros Hv. unfold delete_property. destruct v as [| | | | | |l0]; try done.
  destruct (h !! l0) as [[fs|?|? ?]|] eqn:H0; try done.
  apply lookup_insert_ne. congruence.
Qed.

Lemma delete_property_lookup_eq h k l :
  delete_property h (VRef l) k !! l =
  match h !! l with
  | Some (OPlain fs) => Some (OPlain (delete_field k fs))
  | c => c
  end.
Proof.
  unfold delete_property. destruct (h !! l) as [[fs|?|? ?]|] eqn:H0; try done.
  apply lookup_insert_eq.
Qed.

Lemma delete_property_lookup h v k l :
  delete_property h v k !! l =
  match h !! l with
  | Some (OPlain fs) =>
      Some (OPlain (if decide (v = VRef l) then delete_field k fs else fs))
  | c => c
  end.
Proof.
  destruct (decide (v = VRef l)) as [->|Hne].
  - apply delete_property_lookup_eq.
  - rewrite delete_property_lookup_ne by done. by destruct (h !! l) as [[]|].
Qed.

Lemma own_props_delete_property h v k l :
  own_props (delete_property h v k) l =
  (λ fs, if decide (v = VRef l) then delete_field k fs else fs) <$> own_props h l.
Proof.
  unfold own_props. rewrite delete_property_lookup.
  by destruct (h !! l) as [[]|].
Qed.

Lemma is_function_delete_property h v k x :
  is_function (delete_property h v k) x = is_function h x.
Proof.
  destruct x as [| | | | | |l]; try done. simpl.
  rewrite delete_property_lookup. by destruct (h !! l) as [[]|].
Qed.

Lemma source_text_delete_property h v k x :
  source_text (delete_property h v k) x = source_text h x.
Proof.
  unfold source_text. destruct x as [| | | | | |l]; try done. simpl.
  rewrite delete_property_lookup. by destruct (h !! l) as [[]|].
Qed.

Lemma heap_ok_delete_property h v k :
  heap_ok h → heap_ok (delete_property h v k).
Proof.
  intros Hok l o. rewrite delete_property_lookup.
  destruct (h !! l) as [[fs|a|s c]|] eqn:Hl; intros [= <-]; simpl; try done.
  pose proof (heap_ok_lookup _ _ _ Hok Hl) as Hnd.
  case_decide; [by apply NoDup_keys_delete|done].
Qed.

Lemma ranked_delete_property rk h v k :
  ranked rk h → ranked rk (delete_property h v k).
Proof.
  intros Hr l o. rewrite delete_property_lookup.
  destruct (h !! l) as [[fs|a|s c]|] eqn:Hl; intros [= <-]; simpl; try done.
  - apply Forall_forall. intros x Hx.
    apply (ranked_children rk h l (OPlain fs)); [done|done|]. simpl.
    case_decide; [by eapply children_delete_field|done].
  - apply Forall_forall. intros x Hx.
    by apply (ranked_children rk h l (OArray a)).
Qed.

(** ** The comparison of the callables *)

Lemma every_true callback array :
  every callback array = Some (Normal true) ↔
  ∀ fn, fn ∈ array → callback fn = Some (Normal true).
Proof.
  induction array as [|fn array IH]; simpl.
  - split; [intros _ fn Hfn; by apply elem_of_nil in Hfn | done].
  - split.
    + intros He fn' [->|Hfn']%elem_of_cons.
      * by destruct (callback fn) as [[[]|]|].
      * apply IH; [|done]. by destruct (callback fn) as [[[]|]|].
    + intros Hall. rewrite (Hall fn) by (by left).
      apply IH. intros fn' Hfn'. apply Hall. by right.
Qed.

Lemma every_false callback array :
  every callback array = Some (Normal false) →
  ∃ fn, fn ∈ array ∧ callback fn = Some (Normal false).
Proof.
  induction array as [|fn array IH]; simpl; [done|].
  destruct (callback fn) as [[[]|]|] eqn:Hc; try done.
  - intros (fn' & ? & ?)%IH. exists fn'. split; [by right|done].
  - intros _. exists fn. split; [by left|done].
Qed.

Lemma every_Normal callback (test : string → bool) array :
  (∀ fn, fn ∈ array → callback fn = Some (Normal (test fn))) →
  every callback array = Some (Normal (forallb test array)).
Proof.
  induction array as [|fn array IH]; intros Hall; simpl; [done|].
  rewrite (Hall fn) by (by left). destruct (test fn); simpl; [|done].
  apply IH. intros fn' Hfn'. apply Hall. by right.
Qed.

Lemma toString_Normal h v text :
  toString h v = Some (Normal text) ↔ source_text h v = Some text.
Proof.
  unfold toString, source_text. destruct v as [| | | | | |l]; simpl; try done.
  destruct (h !! l) as [[]|]; simpl; try done.
  split; by intros [= ->].
Qed.

Lemma source_text_is_function h v :
  is_function h v = true ↔ is_Some (source_text h v).
Proof.
  unfold is_function, source_text. destruct v as [| | | | | |l]; simpl;
    try (split; [done|by intros [? ?]]).
  destruct (h !! l) as [[]|]; simpl; try (split; [done|by intros [? ?]]).
Qed.

Lemma same_source_texts h prev next fn t1 t2 :
  source_text h (get_field fn prev) = Some t1 →
  source_text h (get_field fn next) = Some t2 →
  same_source h prev next fn = Some (Normal (String.eqb t1 t2)).
Proof.
  intros H1%toString_Normal H2%toString_Normal. unfold same_source.
  by rewrite H1, H2.
Qed.

Lemma same_source_inv h prev next fn b :
  same_source h prev next fn = Some (Normal b) →
  ∃ t1 t2, source_text h (get_field fn prev) = Some t1 ∧
           source_text h (get_field fn next) = Some t2 ∧
           b = String.eqb t1 t2.
Proof.
  unfold same_source.
  destruct (toString h (get_field fn prev)) as [[t1|]|] eqn:H1; try done.
  destruct (toString h (get_field fn next)) as [[t2|]|] eqn:H2; try done.
  intros [= <-]. exists t1, t2. by rewrite <- !toString_Normal.
Qed.

Lemma elem_of_functions h object fn :
  fn ∈ functions h object ↔
  fn ∈ keys object ∧ is_function h (get_field fn object) = true.
Proof. unfold functions. rewrite list_elem_of_filter. tauto. Qed.

Lemma every_same_source_true h prev next :
  every (same_source h prev next) (functions h prev) = Some (Normal true) ↔
  same_callables h prev next.
Proof.
  rewrite every_true. unfold same_callables. split.
  - intros Hall fn Hfn.
    destruct (same_source_inv _ _ _ _ _ (Hall fn Hfn)) as (t1 & t2 & H1 & H2 & He).
    symmetry in He. apply String.eqb_eq in He as <-. by exists t1.
  - intros Hall fn Hfn. destruct (Hall fn Hfn) as (t & H1 & H2).
    rewrite (same_source_texts _ _ _ _ _ _ H1 H2). by rewrite String.eqb_refl.
Qed.

Lemma every_same_source_false h prev next :
  every (same_source h prev next) (functions h prev) = Some (Normal false) →
  ¬ same_callables h prev next.
Proof.
  intros (fn & Hfn & Hs)%every_false Hall.
  destruct (same_source_inv _ _ _ _ _ Hs) as (t1 & t2 & H1 & H2 & He).
  destruct (Hall fn Hfn) as (t & H1' & H2').
  rewrite H1 in H1'. rewrite H2 in H2'. injection H1' as ->. injection H2' as ->.
  by rewrite String.eqb_refl in He.
Qed.

(** ** [shouldUpdate], step by step *)

Lemma shouldUpdate_throws fuel h prevProps nextProps prev0 :
  own_props h prevProps = Some prev0 →
  is_nullish (get_field "options" prev0) = true →
  shouldUpdate fuel h prevProps nextProps
  = Some (h, Throw (TypeError "mapTypeId")).
Proof. intros Hp Hn. unfold shouldUpdate. rewrite Hp. simpl. by rewrite Hn. Qed.

Lemma shouldUpdate_compares fuel h prevProps nextProps prev0 prev next :
  own_props h prevProps = Some prev0 →
  is_nullish (get_field "options" prev0) = false →
  own_props (after_delete h prev0) prevProps = Some prev →
  own_props (after_delete h prev0) nextProps = Some next →
  shouldUpdate fuel h prevProps nextProps =
  let h' := after_delete h prev0 in
  match isEqual_fresh fuel h' (non_callable h' prev) (non_callable h' next) with
  | Some true =>
      match every (same_source h' prev next) (functions h' prev) with
      | Some r => Some (h', r)
      | None => None
      end
  | Some false => Some (h', Normal false)
  | None => None
  end.
Proof.
  intros Hp Hn Hp' Hn'. unfold shouldUpdate. rewrite Hp. simpl. rewrite Hn.
  rewrite Hp'. simpl. rewrite Hn'. simpl. unfold non_callable.
  destruct (isEqual_fresh _ _ _ _) as [[]|]; simpl; [|done|done].
  by destruct (every _ _).
Qed.

Lemma own_props_after_delete h prev0 l fs :
  own_props h l = Some fs →
  own_props (after_delete h prev0) l =
  Some (if decide (get_field "options" prev0 = VRef l)
        then delete_field "mapTypeId" fs else fs).
Proof.
  intros Hl. unfold after_delete. rewrite own_props_delete_property, Hl. done.
Qed.

Lemma own_props_after_delete_inv h prev0 l fs' :
  own_props (after_delete h prev0) l = Some fs' →
  ∃ fs, own_props h l = Some fs.
Proof.
  unfold after_delete. rewrite own_props_delete_property.
  destruct (own_props h l) as [fs|]; [eauto|done].
Qed.

Lemma heap_ok_own_props h l fs :
  heap_ok h → own_props h l = Some fs → NoDup (keys fs).
Proof.
  intros Hok. unfold own_props.
  destruct (h !! l) as [[fs'|?|? ?]|] eqn:Hl; try done.
  intros [= <-]. by eapply heap_ok_lookup.
Qed.

Lemma shouldUpdate_mono fuel fuel' h prevProps nextProps res :
  (fuel ≤ fuel')%nat →
  shouldUpdate fuel h prevProps nextProps = Some res →
  shouldUpdate fuel' h prevProps nextProps = Some res.
Proof.
  intros Hle. unfold shouldUpdate.
  destruct (own_props h prevProps) as [prev0|]; simpl; [|done].
  destruct (is_nullish _); [done|].
  destruct (own_props _ prevProps) as [prev|]; simpl; [|done].
  destruct (own_props _ nextProps) as [next|]; simpl; [|done].
  destruct (isEqual_fresh fuel _ _ _) as [b|] eqn:He; simpl; [|done].
  by rewrite (isEqual_fresh_mono _ _ _ _ _ _ Hle He).
Qed.

(** The final comparison is the deletion followed by the first one. *)
Lemma shouldUpdate_delete_then_plain fuel h prevProps nextProps prev0 :
  own_props h prevProps = Some prev0 →
  is_nullish (get_field "options" prev0) = false →
  shouldUpdate fuel h prevProps nextProps
  = (λ r, (after_delete h prev0, r))
    <$> shouldUpdate_plain fuel (after_delete h prev0) prevProps nextProps.
Proof.
  intros Hp Hopt. unfold shouldUpdate, shouldUpdate_plain.
  rewrite Hp. simpl. rewrite Hopt.
  destruct (own_props (after_delete h prev0) prevProps) as [prev|]; [|done].
  destruct (own_props (after_delete h prev0) nextProps) as [next|]; [|done].
  simpl. destruct (isEqual_fresh _ _ _ _) as [[]|]; simpl; [|done|done].
  by destruct (every _ _).
Qed.

(** For the first comparison the condition is read in the store of the
    call. *)
Lemma shouldUpdate_plain_true fuel h prevProps nextProps prev next :
  heap_ok h →
  own_props h prevProps = Some prev →
  own_props h nextProps = Some next →
  shouldUpdate_plain fuel h prevProps nextProps = Some (Normal true) →
  deep_equal_props h (non_callable h prev) (non_callable h next)
  ∧ same_callables h prev next.
Proof.
  intros Hok Hp Hn. unfold shouldUpdate_plain. rewrite Hp, Hn. simpl.
  destruct (isEqual_fresh _ _ _ _) as [[]|] eqn:He; simpl; [|done|done].
  intros Hev. split.
  - apply (isEqual_fresh_sound fuel); [done| |done].
    apply NoDup_keys_omit. by eapply heap_ok_own_props.
  - by apply every_same_source_true.
Qed.

(** ** Equal property values *)

Lemma isEqual_fresh_refl fuel h object :
  isEqual_fresh (S (S fuel)) h object object = Some true.
Proof.
  simpl isEqual_fresh. apply equalObjects_true. split_and!; [done|done|].
  intros k _. right. apply baseIsEqual_refl.
Qed.

Lemma omit_set_field k v fs paths :
  k ∈ paths → omit (set_field k v fs) paths = omit fs paths.
Proof.
  intros Hk. unfold omit. induction fs as [|[k' v'] fs IH]; simpl.
  - by rewrite filter_cons_False by (simpl; auto).
  - case_decide as Hk'.
    + subst k'. by rewrite !filter_cons_False by (simpl; auto).
    + rewrite !filter_cons. simpl. rewrite IH. done.
Qed.

Lemma functions_set_field h k v fs :
  is_function h (get_field k fs) = true → is_function h v = true →
  functions h (set_field k v fs) = functions h fs.
Proof.
  intros Hold Hnew. unfold functions.
  assert (k ∈ keys fs) as Hk.
  { apply lookup_field_is_Some. unfold get_field in Hold.
    destruct (lookup_field k fs); [eauto|done]. }
  rewrite keys_set_field_present by done.
  apply list_filter_iff. intros key.
  destruct (decide (key = k)) as [->|Hne].
  - by rewrite get_field_set_eq, Hold, Hnew.
  - by rewrite get_field_set_ne.
Qed.

Lemma forallb_at (k : string) (b : bool) (l : list string) :
  k ∈ l → forallb (λ fn, if decide (fn = k) then b else true) l = b.
Proof.
  induction l as [|x l IH]; [by intros ?%elem_of_nil|]. simpl.
  destruct (decide (x = k)) as [->|Hne].
  - intros _. destruct b; [|done]. simpl.
    apply forallb_forall. intros y _. by case_decide.
  - intros [?|Hin]%elem_of_cons; [congruence|]. by apply IH.
Qed.

(** When the next property set holds the very values of the previous one
    with the function under one name replaced by another function, the
    result is the equality of the two source texts, on any store. *)
Lemma shouldUpdate_callable_same_values fuel h prevProps nextProps prev
    fn f1 f2 text1 captured1 text2 captured2 :
  own_props h prevProps = Some prev →
  own_props h nextProps = Some (set_field fn (VRef f2) prev) →
  is_nullish (get_field "options" prev) = false →
  get_field "options" prev ≠ VRef prevProps →
  get_field "options" prev ≠ VRef nextProps →
  get_field fn prev = VRef f1 →
  h !! f1 = Some (OFun text1 captured1) →
  h !! f2 = Some (OFun text2 captured2) →
  shouldUpdate (S (S fuel)) h prevProps nextProps
  = Some (after_delete h prev, Normal (String.eqb text1 text2)).
Proof.
  intros Hp Hn Hopt Hnp Hnn Hfn H1 H2.
  assert (own_props (after_delete h prev) prevProps = Some prev) as Hp'.
  { rewrite (own_props_after_delete _ _ _ _ Hp). by rewrite decide_False. }
  assert (own_props (after_delete h prev) nextProps
          = Some (set_field fn (VRef f2) prev)) as Hn'.
  { rewrite (own_props_after_delete _ _ _ _ Hn). by rewrite decide_False. }
  rewrite (shouldUpdate_compares _ _ _ _ _ _ _ Hp Hopt Hp' Hn'). cbv zeta.
  set (h' := after_delete h prev).
  assert (is_function h' (get_field fn prev) = true) as Hf1.
  { unfold h', after_delete. rewrite is_function_delete_property, Hfn.
    simpl. by rewrite H1. }
  assert (is_function h' (VRef f2) = true) as Hf2.
  { unfold h', after_delete. rewrite is_function_delete_property.
    simpl. by rewrite H2. }
  assert (fn ∈ functions h' prev) as Hin.
  { apply elem_of_functions. split; [|done].
    apply lookup_field_is_Some. unfold get_field in Hfn.
    destruct (lookup_field fn prev); [eauto|done]. }
  unfold non_callable. rewrite (functions_set_field _ _ _ _ Hf1 Hf2).
  rewrite (omit_set_field _ _ _ _ Hin), isEqual_fresh_refl.
  rewrite (every_Normal _
    (λ fn', if decide (fn' = fn) then String.eqb text1 text2 else true)).
  { by rewrite forallb_at. }
  intros fn' Hfn'. apply elem_of_functions in Hfn' as [_ Hfun].
  destruct (decide (fn' = fn)) as [->|Hne].
  - apply same_source_texts.
    + unfold h', after_delete. rewrite source_text_delete_property, Hfn.
      unfold source_text. simpl. by rewrite H1.
    + rewrite get_field_set_eq.
      unfold h', after_delete. rewrite source_text_delete_property.
      unfold source_text. simpl. by rewrite H2.
  - apply source_text_is_function in Hfun as [t Ht].
    rewrite <- (String.eqb_refl t). apply same_source_texts; [done|].
    by rewrite get_field_set_ne.
Qed.

(** C2 as it is worded fails: two closures of one source text under the
    same name, all other properties equal, and [shouldUpdate] does not return
    [true]. With [null] for [options] it throws; with two equal [options]
    objects that both name their [mapTypeId] it returns [false]. *)
Lemma same_text_not_true :
  source_text page_store (VRef 5) = source_text page_store (VRef 6)
  ∧ (∀ fuel, shouldUpdate fuel page_store 18 19
             = Some (page_store, Throw (TypeError "mapTypeId")))
  ∧ deep_equal page_store (VRef 11) (VRef 17)
  ∧ (∀ fuel, shouldUpdate (3 + fuel) page_store 20 21
             = Some (after_delete page_store
                       [("options", VRef 11); ("onMount", VRef 5)],
                     Normal false)).
Proof.
  split_and!.
  - vm_compute. reflexivity.
  - intros fuel.
    apply shouldUpdate_throws with [("options", VNull); ("onMount", VRef 5)];
      vm_compute; reflexivity.
  - apply (baseIsEqual_sound 3).
    + apply (bool_decide_unpack _). vm_compute. exact I.
    + vm_compute. reflexivity.
  - intros fuel. apply shouldUpdate_mono with 3; [lia|].
    vm_compute. reflexivity.
Qed.

(** C3, as the code has it: for every property set whose [options] is
    neither [undefined] nor [null], [shouldUpdate] applied to the set and itself
    returns [true], callables included. *)
Theorem shouldUpdate_reflexive fuel h props prev :
  own_props h props = Some prev →
  is_nullish (get_field "options" prev) = false →
  shouldUpdate (S (S fuel)) h props props
  = Some (after_delete h prev, Normal true).
Proof.
  intros Hp Hopt.
  pose proof (own_props_after_delete _ prev _ _ Hp) as Hp'.
  rewrite (shouldUpdate_compares _ _ _ _ _ _ _ Hp Hopt Hp' Hp'). cbv zeta.
  rewrite isEqual_fresh_refl.
  set (h' := after_delete h prev). set (prev' := if decide _ then _ else _).
  assert (every (same_source h' prev' prev') (functions h' prev')
          = Some (Normal true)) as ->; [|done].
  apply every_true. intros fn [_ Hfun]%elem_of_functions.
  apply source_text_is_function in Hfun as [t Ht].
  rewrite <- (String.eqb_refl t). by apply same_source_texts.
Qed.

Lemma shouldUpdate_reflexive_witness :
  shouldUpdate 2 page_store 1 1
  = Some (after_delete page_store [("options", VRef 3); ("onMount", VRef 5)],
          Normal true).
Proof.
  apply (shouldUpdate_reflexive 0 page_store 1
           [("options", VRef 3); ("onMount", VRef 5)]);
    vm_compute; reflexivity.
Defined.

(** C3 as it is worded fails on a property set without a usable
    [options]: [shouldUpdate] throws instead of returning [true]. *)
Lemma null_options_throw :
  own_props page_store 12 = Some [("options", VNull)]
  ∧ ∀ fuel, shouldUpdate fuel page_store 12 12
            = Some (page_store, Throw (TypeError "mapTypeId")).
Proof.
  split; [vm_compute; reflexivity|]. intros fuel.
  by apply shouldUpdate_throws with [("options", VNull)].
Qed.

(** ** Callable names that differ *)

(** A property that only one partition has is a mismatch: the deep
    comparison answers [false] and nothing is thrown. *)
Lemma shouldUpdate_key_mismatch fuel h prevProps nextProps prev0 prev next k :
  own_props h prevProps = Some prev0 →
  is_nullish (get_field "options" prev0) = false →
  own_props (after_delete h prev0) prevProps = Some prev →
  own_props (after_delete h prev0) nextProps = Some next →
  k ∈ keys (non_callable (after_delete h prev0) prev) →
  k ∉ keys (non_callable (after_delete h prev0) next) →
  shouldUpdate (S fuel) h prevProps nextProps
  = Some (after_delete h prev0, Normal false).
Proof.
  intros Hp Hopt Hp' Hn' Hin Hout.
  rewrite (shouldUpdate_compares _ _ _ _ _ _ _ Hp Hopt Hp' Hn'). cbv zeta.
  assert (isEqual_fresh (S fuel) (after_delete h prev0)
            (non_callable (after_delete h prev0) prev)
            (non_callable (after_delete h prev0) next) = Some false) as ->;
    [|done].
  simpl. unfold equalObjects. destruct (negb (_ =? _)%nat); [done|].
  destruct (forallb _ _) eqn:Hown; [|done].
  by apply (proj1 (forallb_has_own _ _)) with (k := k) in Hown.
Qed.

(** C4 on the code: with [onMount] in the previous set only and all else
    equal, [shouldUpdate] throws a [TypeError] from [nextProps[fn].toString()];
    with [onMount] in the next set only, it returns [true]. Neither is the
    mismatch, [false], that the specification asks for. *)
Theorem callable_in_one_set_only :
  (∀ fuel, shouldUpdate (2 + fuel) page_store 1 9
           = Some (after_delete page_store
                     [("options", VRef 3); ("onMount", VRef 5)],
                   Throw (TypeError "toString")))
  ∧ (∀ fuel, shouldUpdate (2 + fuel) page_store 9 1
             = Some (after_delete page_store [("options", VRef 3)],
                     Normal true)).
Proof.
  split; intros fuel; (apply shouldUpdate_mono with 2; [lia|]);
    vm_compute; reflexivity.
Qed.

(** ** Normal use *)

Lemma own_props_lookup h l fs :
  own_props h l = Some fs ↔ h !! l = Some (OPlain fs).
Proof.
  unfold own_props. destruct (h !! l) as [[]|]; split; congruence.
Qed.

Lemma functions_delete_property h v k fs :
  functions (delete_property h v k) fs = functions h fs.
Proof.
  unfold functions. apply list_filter_iff. intros key.
  by rewrite is_function_delete_property.
Qed.

Lemma children_omit fs paths x : x ∈ (omit fs paths).*2 → x ∈ fs.*2.
Proof.
  intros [[k' v'] [-> Hin]]%list_elem_of_fmap.
  apply list_elem_of_filter in Hin as [_ Hin].
  apply list_elem_of_fmap. by exists (k', v').
Qed.

Lemma ranked_options_apart rk h l fs :
  ranked rk h → own_props h l = Some fs →
  is_nullish (get_field "options" fs) = false →
  get_field "options" fs ≠ VRef l.
Proof.
  intros Hr Hl%own_props_lookup Hopt Heq.
  assert (get_field "options" fs ∈ children (OPlain fs)) as Hin.
  { simpl. apply get_field_children.
    destruct (decide ("options" ∈ keys fs)) as [|Hno]; [done|].
    by rewrite (get_field_absent _ _ Hno) in Hopt. }
  pose proof (ranked_children _ _ _ _ _ Hr Hl Hin) as Hle.
  rewrite Heq in Hle. simpl in Hle. lia.
Qed.

(** Where [shouldUpdate] does return a boolean: the store has no cycle;
    the previous [options] is neither [undefined] nor [null], and is not
    the next property set itself; every callable name of the previous set
    is callable in the next one. *)
Theorem shouldUpdate_returns_boolean rk h prevProps nextProps prev next :
  ranked rk h →
  own_props h prevProps = Some prev →
  own_props h nextProps = Some next →
  is_nullish (get_field "options" prev) = false →
  get_field "options" prev ≠ VRef nextProps →
  (∀ fn, fn ∈ functions h prev → is_function h (get_field fn next) = true) →
  ∃ b : bool, ∀ fuel, (rk prevProps + 2 ≤ fuel)%nat →
    shouldUpdate fuel h prevProps nextProps
    = Some (after_delete h prev, Normal b).
Proof.
  intros Hr Hp Hn Hopt Hnn Hcall.
  pose proof (ranked_options_apart _ _ _ _ Hr Hp Hopt) as Hnp.
  assert (own_props (after_delete h prev) prevProps = Some prev) as Hp'.
  { rewrite (own_props_after_delete _ _ _ _ Hp). by rewrite decide_False. }
  assert (own_props (after_delete h prev) nextProps = Some next) as Hn'.
  { rewrite (own_props_after_delete _ _ _ _ Hn). by rewrite decide_False. }
  set (h' := after_delete h prev) in *.
  assert (ranked rk h') as Hr' by apply ranked_delete_property, Hr.
  destruct (isEqual_fresh_total rk h' (rk prevProps)
              (non_callable h' prev) (non_callable h' next) Hr')
    as [b0 Hb0].
  { intros x Hx%children_omit.
    apply (ranked_children rk h prevProps (OPlain prev)); [done| |done].
    by apply own_props_lookup. }
  set (test := λ fn,
    match source_text h' (get_field fn prev),
          source_text h' (get_field fn next) with
    | Some t1, Some t2 => String.eqb t1 t2
    | _, _ => false
    end).
  assert (every (same_source h' prev next) (functions h' prev)
          = Some (Normal (forallb test (functions h' prev)))) as Hev.
  { apply every_Normal. intros fn Hfn.
    assert (is_function h' (get_field fn next) = true) as Hf2.
    { unfold h', after_delete. rewrite is_function_delete_property.
      apply Hcall. unfold h', after_delete in Hfn.
      by rewrite functions_delete_property in Hfn. }
    apply elem_of_functions in Hfn as [_ Hf1].
    apply source_text_is_function in Hf1 as [t1 Ht1].
    apply source_text_is_function in Hf2 as [t2 Ht2].
    unfold test. rewrite Ht1, Ht2. by apply same_source_texts. }
  exists (if b0 then forallb test (functions h' prev) else false).
  intros fuel Hfuel.
  rewrite (shouldUpdate_compares _ _ _ _ _ _ _ Hp Hopt Hp' Hn'). cbv zeta.
  fold h'.
  rewrite (isEqual_fresh_mono (S (S (rk prevProps))) fuel _ _ _ b0)
    by (done || lia).
  destruct b0; [by rewrite Hev|done].
Qed.

Lemma shouldUpdate_returns_boolean_witness :
  ∃ b : bool,
    shouldUpdate 4 page_store 1 14
    = Some (after_delete page_store
              [("options", VRef 3); ("onMount", VRef 5)], Normal b).
Proof.
  destruct (shouldUpdate_returns_boolean page_rank page_store 1 14
              [("options", VRef 3); ("onMount", VRef 5)]
              [("options", VRef 3); ("onMount", VRef 15)]) as [b Hb].
  - apply (bool_decide_unpack _). vm_compute. exact I.
  - vm_compute. reflexivity.
  - vm_compute. reflexivity.
  - vm_compute. reflexivity.
  - discriminate.
  - intros fn Hfn. vm_compute in Hfn.
    apply list_elem_of_singleton in Hfn as ->. vm_compute. reflexivity.
  - exists b. apply Hb. vm_compute. lia.
Defined.

(** ** The model covers every store without cycles *)

(** After a successful comparison of the partitions, a callable name of
    the previous set is either missing from the next set or callable
    there: [toString] is called on [undefined] or on a function. *)
Lemma every_reaches_functions fuel h prev next fn :
  NoDup (keys prev) →
  isEqual_fresh fuel h (non_callable h prev) (non_callable h next) = Some true →
  fn ∈ functions h prev →
  fn ∉ keys next ∨ is_function h (get_field fn next) = true.
Proof.
  intros Hnd He Hfn. destruct fuel as [|fuel]; [done|]. simpl in He.
  apply equalObjects_true in He as (Hlen & Hsub & _).
  pose proof (keys_same_set _ _ (NoDup_keys_omit _ _ Hnd) Hlen Hsub) as Hkeys.
  destruct (decide (fn ∈ keys next)) as [Hin|Hout]; [|by left]. right.
  destruct (is_function h (get_field fn next)) eqn:Hf; [done|exfalso].
  assert (fn ∈ keys (non_callable h next)) as Hpart.
  { apply elem_of_keys_omit. split; [done|].
    rewrite elem_of_functions. intros [_ ?]. congruence. }
  apply Hkeys, elem_of_keys_omit in Hpart as [_ Hno]. by apply Hno.
Qed.

Lemma shouldUpdate_completes rk h prevProps nextProps prev next :
  ranked rk h → heap_ok h →
  own_props h prevProps = Some prev →
  own_props h nextProps = Some next →
  ∃ res, ∀ fuel, (rk prevProps + 2 ≤ fuel)%nat →
    shouldUpdate fuel h prevProps nextProps = Some res.
Proof.
  intros Hr Hok Hp Hn.
  destruct (is_nullish (get_field "options" prev)) eqn:Hopt.
  { eexists. intros fuel _. by apply shouldUpdate_throws with prev. }
  pose proof (ranked_options_apart _ _ _ _ Hr Hp Hopt) as Hnp.
  assert (own_props (after_delete h prev) prevProps = Some prev) as Hp'.
  { rewrite (own_props_after_delete _ _ _ _ Hp). by rewrite decide_False. }
  pose proof (own_props_after_delete _ prev _ _ Hn) as Hn'.
  set (next' := if decide _ then _ else _) in Hn'.
  set (h' := after_delete h prev) in *.
  assert (ranked rk h') as Hr' by apply ranked_delete_property, Hr.
  assert (heap_ok h') as Hok' by apply heap_ok_delete_property, Hok.
  destruct (isEqual_fresh_total rk h' (rk prevProps)
              (non_callable h' prev) (non_callable h' next') Hr')
    as [b0 Hb0].
  { intros x Hx%children_omit.
    apply (ranked_children rk h prevProps (OPlain prev)); [done| |done].
    by apply own_props_lookup. }
  assert (b0 = true → is_Some (every (same_source h' prev next')
                                 (functions h' prev))) as Hev.
  { intros ->.
    assert (∀ fns, (∀ fn, fn ∈ fns → fn ∈ functions h' prev) →
                   is_Some (every (same_source h' prev next') fns)) as Hall.
    { induction fns as [|fn fns IH]; intros Hsub; simpl; [done|].
      assert (is_Some (same_source h' prev next' fn)) as [c Hc].
      { pose proof (Hsub fn ltac:(by left)) as Hfn.
        pose proof (heap_ok_own_props _ _ _ Hok' Hp') as Hnd.
        destruct (every_reaches_functions _ _ _ _ _ Hnd Hb0 Hfn) as [Hno|Hf2].
        - apply elem_of_functions in Hfn as [_ Hf1].
          apply source_text_is_function in Hf1 as [t1 Ht1%toString_Normal].
          unfold same_source. rewrite Ht1, (get_field_absent _ _ Hno). done.
        - apply elem_of_functions in Hfn as [_ Hf1].
          apply source_text_is_function in Hf1 as [t1 Ht1].
          apply source_text_is_function in Hf2 as [t2 Ht2].
          by rewrite (same_source_texts _ _ _ _ _ _ Ht1 Ht2). }
      rewrite Hc. destruct c as [[]|]; [|done|done].
      apply IH. intros fn' Hfn'. apply Hsub. by right. }
    by apply Hall. }
  destruct b0.
  - destruct Hev as [r Hev]; [done|]. exists (h', r). intros fuel Hfuel.
    rewrite (shouldUpdate_compares _ _ _ _ _ _ _ Hp Hopt Hp' Hn'). cbv zeta.
    fold h'.
    rewrite (isEqual_fresh_mono (S (S (rk prevProps))) fuel _ _ _ true)
      by (done || lia).
    by rewrite Hev.
  - exists (h', Normal false). intros fuel Hfuel.
    rewrite (shouldUpdate_compares _ _ _ _ _ _ _ Hp Hopt Hp' Hn'). cbv zeta.
    fold h'.
    by rewrite (isEqual_fresh_mono (S (S (rk prevProps))) fuel _ _ _ false)
      by (done || lia).
Qed.

(** ** The special-cased field *)

(** C6, as the code has it: when the provider writes any value into
    [options.mapTypeId] of the previous property set, in place, [shouldUpdate]
    returns what it returns without that write, and leaves the same
    store: [true] wherever it returned [true]. Only the field of the
    previous set is left out of the comparison. *)
Theorem shouldUpdate_ignores_mapTypeId fuel h prevProps nextProps prev lo fo v :
  own_props h prevProps = Some prev →
  get_field "options" prev = VRef lo →
  h !! lo = Some (OPlain fo) →
  shouldUpdate fuel (<[lo := OPlain (set_field "mapTypeId" v fo)]> h)
    prevProps nextProps
  = shouldUpdate fuel h prevProps nextProps.
Proof.
  intros Hp Hopt Hlo.
  set (h1 := <[lo := OPlain (set_field "mapTypeId" v fo)]> h).
  assert (∃ prev1, own_props h1 prevProps = Some prev1
                   ∧ get_field "options" prev1 = VRef lo) as (prev1 & Hp1 & Hopt1).
  { destruct (decide (lo = prevProps)) as [->|Hne].
    - exists (set_field "mapTypeId" v fo). split.
      + apply own_props_lookup. unfold h1. apply lookup_insert_eq.
      + apply own_props_lookup in Hp. rewrite Hlo in Hp. injection Hp as ->.
        by rewrite get_field_set_ne.
    - exists prev. split; [|done].
      apply own_props_lookup. unfold h1. rewrite lookup_insert_ne by done.
      by apply own_props_lookup. }
  assert (after_delete h1 prev1 = after_delete h prev) as Hsame.
  { unfold after_delete. rewrite Hopt, Hopt1. unfold delete_property.
    rewrite Hlo. unfold h1. rewrite lookup_insert_eq, insert_insert_eq.
    by rewrite delete_set_field. }
  unfold shouldUpdate. rewrite Hp, Hp1. simpl.
  rewrite Hopt, Hopt1. simpl. by rewrite Hsame.
Qed.

Lemma shouldUpdate_ignores_mapTypeId_witness :
  shouldUpdate 2
    (<[3 := OPlain (set_field "mapTypeId" (VStr "satellite")
                      [("center", VRef 4); ("zoom", VNum 5);
                       ("mapTypeId", VStr "roadmap")])]> page_store)
    1 2
  = shouldUpdate 2 page_store 1 2
  ∧ shouldUpdate 2 page_store 1 2
    = Some (after_delete page_store
              [("options", VRef 3); ("onMount", VRef 5)], Normal true).
Proof.
  split.
  - apply (shouldUpdate_ignores_mapTypeId 2 page_store 1 2
             [("options", VRef 3); ("onMount", VRef 5)] 3
             [("center", VRef 4); ("zoom", VNum 5);
              ("mapTypeId", VStr "roadmap")] (VStr "satellite"));
      vm_compute; reflexivity.
  - vm_compute. reflexivity.
Defined.

(** C6 as it is worded fails when the next property set brings an
    [options] object of its own that names [mapTypeId]: the provider
    rewrites the field of the previous set, every other value is as it
    was, and [shouldUpdate] returns [false], because the field of the next set
    stays in the comparison. *)
Lemma provider_write_compare_false :
  deep_equal page_store (VRef 10) (VRef 16)
  ∧ ∀ fuel,
      shouldUpdate (3 + fuel)
        (<[11 := OPlain (set_field "mapTypeId" (VStr "satellite")
                           [("center", VRef 4); ("zoom", VNum 5);
                            ("mapTypeId", VStr "roadmap")])]> page_store)
        10 16
      = Some (after_delete page_store [("options", VRef 11)], Normal false).
Proof.
  split.
  - apply (baseIsEqual_sound 4).
    + apply (bool_decide_unpack _). vm_compute. exact I.
    + vm_compute. reflexivity.
  - intros fuel. apply shouldUpdate_mono with 3; [lia|].
    vm_compute. reflexivity.
Qed.

(** ** What [shouldUpdate] changes *)

Lemma shouldUpdate_store fuel h prevProps nextProps prev h' r :
  own_props h prevProps = Some prev →
  shouldUpdate fuel h prevProps nextProps = Some (h', r) →
  (is_nullish (get_field "options" prev) = true ∧ h' = h)
  ∨ (is_nullish (get_field "options" prev) = false
     ∧ h' = after_delete h prev).
Proof.
  intros Hp. unfold shouldUpdate. rewrite Hp. simpl.
  destruct (is_nullish _) eqn:Hopt.
  { intros [= <- <-]. by left. }
  intros Hrun. right. split; [done|].
  destruct (own_props (after_delete h prev) prevProps) as [prev'|];
    simpl in Hrun; [|done].
  destruct (own_props (after_delete h prev) nextProps) as [next'|];
    simpl in Hrun; [|done].
  destruct (isEqual_fresh _ _ _ _) as [[]|]; simpl in Hrun; [| |done].
  - destruct (every _ _); simpl in Hrun; [|done]. by injection Hrun as <- _.
  - by injection Hrun as <- _.
Qed.

(** C7, as the code has it: after a call, every cell of the store is as
    it was, except the plain object that [options] of the previous set
    refers to, which has lost its own [mapTypeId] and nothing else. The
    next property set sees that deletion when it shares the object. *)
Theorem shouldUpdate_frame fuel h prevProps nextProps prev h' r :
  own_props h prevProps = Some prev →
  shouldUpdate fuel h prevProps nextProps = Some (h', r) →
  ∀ l, h' !! l =
       match h !! l with
       | Some (OPlain fs) =>
           Some (OPlain (if decide (get_field "options" prev = VRef l)
                         then delete_field "mapTypeId" fs else fs))
       | c => c
       end.
Proof.
  intros Hp Hrun l.
  destruct (shouldUpdate_store _ _ _ _ _ _ _ Hp Hrun) as [[Hopt ->]|[_ ->]].
  - destruct (h !! l) as [[fs| |]|]; try done.
    rewrite decide_False; [done|]. intros Heq. by rewrite Heq in Hopt.
  - apply delete_property_lookup.
Qed.

Lemma shouldUpdate_frame_witness :
  after_delete page_store [("options", VRef 11)] !! 11 =
  match page_store !! 11 with
  | Some (OPlain fs) =>
      Some (OPlain (if decide (get_field "options" [("options", VRef 11)]
                               = VRef 11)
                    then delete_field "mapTypeId" fs else fs))
  | c => c
  end.
Proof.
  apply (shouldUpdate_frame 3 page_store 10 16 [("options", VRef 11)]
           (after_delete page_store [("options", VRef 11)]) (Normal false));
    vm_compute; reflexivity.
Defined.

(** C7 as it is worded fails when the two property sets share their
    [options] object, as they do with the default properties: [shouldUpdate]
    returns, and [mapTypeId] is gone from the [options] of the next set
    too. *)
Lemma shared_options_lose_mapTypeId :
  get_field "options" <$> own_props page_store 2 = Some (VRef 3)
  ∧ get_field "mapTypeId" <$> own_props page_store 3
    = Some (VStr "roadmap")
  ∧ ∃ h', shouldUpdate 2 page_store 1 2 = Some (h', Normal true)
        ∧ get_field "options" <$> own_props h' 2 = Some (VRef 3)
        ∧ get_field "mapTypeId" <$> own_props h' 3 = Some VUndefined.
Proof.
  split_and!; [vm_compute; reflexivity..|].
  eexists. split_and!; vm_compute; reflexivity.
Qed.

(** ** The precondition on [options] *)

Lemma same_source_throws h prev next fn e :
  same_source h prev next fn = Some (Throw e) → e = TypeError "toString".
Proof.
  unfold same_source, toString.
  destruct (get_field fn prev) as [| | | | | |l1]; try done;
    try (by intros [= <-]).
  - destruct (h !! l1) as [[]|]; try done.
    destruct (get_field fn next) as [| | | | | |l2]; try done;
      try (by intros [= <-]).
    by destruct (h !! l2) as [[]|].
Qed.

Lemma every_same_source_throws h prev next array e :
  every (same_source h prev next) array = Some (Throw e) →
  e = TypeError "toString".
Proof.
  induction array as [|fn array IH]; simpl; [done|].
  destruct (same_source h prev next fn) as [[[]|e']|] eqn:Hs; try done.
  intros [= <-]. by eapply same_source_throws.
Qed.

(** C10, as the code has it: when [options] of the previous set is absent,
    [undefined] or [null], [shouldUpdate] throws a [TypeError] at the deletion
    and leaves the store as it was; for any other [options], a number or a
    string included, the deletion throws nothing. *)
Theorem shouldUpdate_needs_options fuel h prevProps nextProps prev :
  own_props h prevProps = Some prev →
  (is_nullish (get_field "options" prev) = true →
   shouldUpdate fuel h prevProps nextProps
   = Some (h, Throw (TypeError "mapTypeId")))
  ∧ (is_nullish (get_field "options" prev) = false →
     ∀ h' r, shouldUpdate fuel h prevProps nextProps = Some (h', r) →
             r ≠ Throw (TypeError "mapTypeId")).
Proof.
  intros Hp. split.
  - intros Hopt. by apply shouldUpdate_throws with prev.
  - intros Hopt h' r. unfold shouldUpdate. rewrite Hp. simpl. rewrite Hopt.
    destruct (own_props (after_delete h prev) prevProps) as [prev'|];
      simpl; [|done].
    destruct (own_props (after_delete h prev) nextProps) as [next'|];
      simpl; [|done].
    destruct (isEqual_fresh _ _ _ _) as [[]|]; simpl; [| |done].
    + destruct (every _ _) as [r'|] eqn:Hev; simpl; [|done].
      intros [= _ <-] ->. by apply every_same_source_throws in Hev.
    + by intros [= _ <-].
Qed.

Lemma shouldUpdate_needs_options_witness :
  shouldUpdate 2 page_store 12 9
  = Some (page_store, Throw (TypeError "mapTypeId"))
  ∧ @Normal bool true ≠ Throw (TypeError "mapTypeId").
Proof.
  split.
  - apply (shouldUpdate_needs_options 2 page_store 12 9 [("options", VNull)]);
      vm_compute; reflexivity.
  - apply (shouldUpdate_needs_options 2 page_store 13 13
             [("options", VNum 5)]) with page_store;
      vm_compute; reflexivity.
Defined.

(** C10 as it is worded fails for an [options] that is not an object but
    is not [null] either: with the number [5] the deletion does nothing
    and [shouldUpdate] returns a boolean. *)
Lemma number_options_return :
  own_props page_store 13 = Some [("options", VNum 5)]
  ∧ ∀ fuel, shouldUpdate (2 + fuel) page_store 13 13
            = Some (page_store, Normal true).
Proof.
  split; [vm_compute; reflexivity|]. intros fuel.
  apply shouldUpdate_mono with 2; [lia|]. vm_compute. reflexivity.
Qed.

(** ** The overlay *)

(** C9: the visibility and the opacity of the overlay follow the
    truthiness of [open] and nothing else: [visible] and [1] when it is
    truthy, [hidden] and [0] when it is not, in the two interpolations and
    in the style sheet built from them. *)
Theorem ModalBehind_follows_open props :
  (truthy (get_field "open" props) = true →
   ModalBehind_visibility props = "visible"
   ∧ ModalBehind_opacity props = "1"
   ∧ "visibility: visible;" ∈ ModalBehind props
   ∧ "opacity: 1;" ∈ ModalBehind props)
  ∧ (truthy (get_field "open" props) = false →
     ModalBehind_visibility props = "hidden"
     ∧ ModalBehind_opacity props = "0"
     ∧ "visibility: hidden;" ∈ ModalBehind props
     ∧ "opacity: 0;" ∈ ModalBehind props).
Proof.
  unfold ModalBehind, ModalBehind_visibility, ModalBehind_opacity.
  split; intros ->; simpl; split_and!; try done;
    apply list_elem_of_In; simpl; tauto.
Qed.

Lemma ModalBehind_follows_open_witness :
  (ModalBehind_visibility [("open", VBool true)] = "visible"
   ∧ ModalBehind_opacity [("open", VBool true)] = "1"
   ∧ "visibility: visible;" ∈ ModalBehind [("open", VBool true)]
   ∧ "opacity: 1;" ∈ ModalBehind [("open", VBool true)])
  ∧ (ModalBehind_visibility [("maxWidth", VStr "30em")] = "hidden"
     ∧ ModalBehind_opacity [("maxWidth", VStr "30em")] = "0"
     ∧ "visibility: hidden;" ∈ ModalBehind [("maxWidth", VStr "30em")]
     ∧ "opacity: 0;" ∈ ModalBehind [("maxWidth", VStr "30em")]).
Proof.
  split.
  - apply (ModalBehind_follows_open [("open", VBool true)]). reflexivity.
  - apply (ModalBehind_follows_open [("maxWidth", VStr "30em")]). reflexivity.
Defined.

(** ** The loader *)

Lemma Map_effect_loaded api_key h v p :
  google p = true →
  Map_effect api_key h v p = (onLoad h v p, None)
  ∧ scripts (mount api_key h v p) = scripts p
  ∧ listeners (mount api_key h v p) = listeners p
  ∧ NewMap (view_id v) ∈ actions (mount api_key h v p).
Proof.
  intros Hg. unfold mount, Map_effect. rewrite Hg. simpl. split_and!; try done.
  apply elem_of_app. right. left.
Qed.

Lemma Map_effect_loading api_key h v p :
  google p = false →
  loads (mount api_key h v p) = S (loads p)
  ∧ google (mount api_key h v p) = false
  ∧ actions (mount api_key h v p) = actions p.
Proof.
  intros Hg. unfold mount, Map_effect, loads. rewrite Hg. simpl.
  rewrite length_app. simpl. split_and!; [lia|done|done].
Qed.

(** When the second view mounts after the script has loaded, there is one
    load, and the second map is built at once. *)
Lemma mount_after_load api_key :
  loads (mount api_key page_store second_view
           (script_load page_store 0
              (mount api_key page_store first_view blank_page))) = 1
  ∧ actions (mount api_key page_store second_view
               (script_load page_store 0
                  (mount api_key page_store first_view blank_page)))
    = [NewMap 0; CallOnMount 0; NewMap 1].
Proof. split; reflexivity. Qed.

(** C8 on the code: two views mounted before the script has loaded both
    find [window.google] undefined, and each creates and appends a script
    of its own, so the load routine runs twice. *)
Theorem mount_twice_before_load api_key :
  loads (mount api_key page_store second_view
           (mount api_key page_store first_view blank_page)) = 2
  ∧ listeners (mount api_key page_store second_view
                 (mount api_key page_store first_view blank_page))
    = [(0, first_view); (1, second_view)].
Proof. split; reflexivity. Qed.

(** * Further properties of the code *)

(** ** The first comparison of the tutorial *)

(** The comparison without the deletion returns [true] on a property set
    and itself, whatever its [options] is, absent and [null] included. *)
Theorem shouldUpdate_plain_reflexive fuel h props prev :
  own_props h props = Some prev →
  shouldUpdate_plain (S (S fuel)) h props props = Some (Normal true).
Proof.
  intros Hp. unfold shouldUpdate_plain. rewrite Hp. cbn [mbind option_bind].
  rewrite isEqual_fresh_refl. cbn [mbind option_bind].
  apply every_true. intros fn [_ Hfun]%elem_of_functions.
  apply source_text_is_function in Hfun as [t Ht].
  rewrite <- (String.eqb_refl t). by apply same_source_texts.
Qed.

Lemma shouldUpdate_plain_reflexive_witness :
  shouldUpdate_plain 2 page_store 12 12 = Some (Normal true)
  ∧ shouldUpdate_plain 2 page_store 1 1 = Some (Normal true).
Proof.
  split.
  - apply (shouldUpdate_plain_reflexive 0 page_store 12 [("options", VNull)]).
    vm_compute. reflexivity.
  - apply (shouldUpdate_plain_reflexive 0 page_store 1
             [("options", VRef 3); ("onMount", VRef 5)]).
    vm_compute. reflexivity.
Defined.

Lemma delete_field_absent k fs : k ∉ keys fs → delete_field k fs = fs.
Proof.
  unfold delete_field, keys. induction fs as [|[k' v'] fs IH]; [done|].
  rewrite fmap_cons, not_elem_of_cons. simpl. intros [Hne Hout].
  rewrite filter_cons_True by (simpl; congruence). by rewrite IH.
Qed.

Lemma delete_field_idemp k fs :
  delete_field k (delete_field k fs) = delete_field k fs.
Proof.
  apply delete_field_absent. rewrite keys_delete_field, list_elem_of_filter.
  by intros [? _].
Qed.

(** The two comparisons agree whenever the [options] object of the
    previous set has no [mapTypeId] of its own: the deletion changes
    nothing and the final comparison is the first one. *)
Theorem shouldUpdate_without_mapTypeId fuel h prevProps nextProps prev :
  own_props h prevProps = Some prev →
  is_nullish (get_field "options" prev) = false →
  (∀ lo fo, get_field "options" prev = VRef lo → h !! lo = Some (OPlain fo) →
            "mapTypeId" ∉ keys fo) →
  shouldUpdate fuel h prevProps nextProps
  = (λ r, (h, r)) <$> shouldUpdate_plain fuel h prevProps nextProps.
Proof.
  intros Hp Hopt Hno.
  assert (after_delete h prev = h) as Hsame.
  { unfold after_delete, delete_property.
    destruct (get_field "options" prev) as [| | | | | |lo] eqn:Ho; try done.
    destruct (h !! lo) as [[fo| |]|] eqn:Hlo; try done.
    rewrite (delete_field_absent _ _ (Hno lo fo eq_refl Hlo)).
    by apply insert_id. }
  rewrite (shouldUpdate_delete_then_plain _ _ _ _ _ Hp Hopt). by rewrite Hsame.
Qed.

Lemma shouldUpdate_without_mapTypeId_witness :
  shouldUpdate 3 page_store 13 9
  = (λ r, (page_store, r)) <$> shouldUpdate_plain 3 page_store 13 9.
Proof.
  apply (shouldUpdate_without_mapTypeId 3 page_store 13 9 [("options", VNum 5)]).
  - vm_compute. reflexivity.
  - vm_compute. reflexivity.
  - intros lo fo Hlo. discriminate Hlo.
Defined.

(** ** Calling [shouldUpdate] again *)

(** A second call on the store that the first call left returns the same
    completion and changes nothing more. *)
Theorem shouldUpdate_twice fuel h prevProps nextProps h' r :
  shouldUpdate fuel h prevProps nextProps = Some (h', r) →
  shouldUpdate fuel h' prevProps nextProps = Some (h', r).
Proof.
  intros Hrun.
  destruct (own_props h prevProps) as [prev|] eqn:Hp;
    [|by unfold shouldUpdate in Hrun; rewrite Hp in Hrun].
  destruct (shouldUpdate_store _ _ _ _ _ _ _ Hp Hrun) as [[Hopt ->]|[Hopt ->]];
    [done|].
  pose proof (own_props_after_delete _ prev _ _ Hp) as Hp'.
  set (prev' := if decide _ then _ else _) in Hp'.
  assert (get_field "options" prev' = get_field "options" prev) as Hopt'.
  { unfold prev'. case_decide; [by apply get_field_delete_ne|done]. }
  assert (after_delete (after_delete h prev) prev' = after_delete h prev)
    as Hsame.
  { unfold after_delete at 1. rewrite Hopt'. unfold after_delete.
    destruct (get_field "options" prev) as [| | | | | |lo] eqn:Ho; try done.
    unfold delete_property at 1. rewrite delete_property_lookup_eq.
    destruct (h !! lo) as [[fo| |]|] eqn:Hlo; try done.
    rewrite delete_field_idemp. apply insert_id.
    by rewrite delete_property_lookup_eq, Hlo. }
  rewrite (shouldUpdate_delete_then_plain _ _ _ _ _ Hp Hopt) in Hrun.
  assert (is_nullish (get_field "options" prev') = false) as Hn'
    by (by rewrite Hopt').
  rewrite (shouldUpdate_delete_then_plain _ _ _ _ _ Hp' Hn').
  by rewrite Hsame.
Qed.

Lemma shouldUpdate_twice_witness :
  shouldUpdate 2
    (after_delete page_store [("options", VRef 3); ("onMount", VRef 5)]) 1 2
  = Some (after_delete page_store [("options", VRef 3); ("onMount", VRef 5)],
          Normal true).
Proof.
  apply (shouldUpdate_twice 2 page_store 1 2). vm_compute. reflexivity.
Defined.

(** ** Properties that differ *)

Lemma non_callable_keys h props k :
  k ∈ keys (non_callable h props) ↔
  k ∈ keys props ∧ is_function h (get_field k props) = false.
Proof.
  unfold non_callable. rewrite elem_of_keys_omit, elem_of_functions. split.
  - intros [Hk Hno]. split; [done|].
    destruct (is_function h (get_field k props)); [|done].
    by destruct Hno.
  - intros [Hk Hf]. split; [done|]. intros [_ ?]. congruence.
Qed.

Lemma non_callable_get h props k :
  k ∈ keys (non_callable h props) →
  get_field k (non_callable h props) = get_field k props.
Proof.
  unfold non_callable. intros [_ Hno]%elem_of_keys_omit.
  by apply get_field_omit.
Qed.

(** The split into callable names and the rest is exact: a key of a
    property set is a callable name when its value is a function and a
    key of the non-callable partition when it is not, never both, and the
    partition keeps the value. *)
Theorem partition_exact h props k :
  (k ∈ functions h props ↔
     k ∈ keys props ∧ is_function h (get_field k props) = true)
  ∧ (k ∈ keys (non_callable h props) ↔
     k ∈ keys props ∧ is_function h (get_field k props) = false)
  ∧ (k ∈ keys (non_callable h props) →
     get_field k (non_callable h props) = get_field k props).
Proof.
  split_and!.
  - apply elem_of_functions.
  - apply non_callable_keys.
  - apply non_callable_get.
Qed.

Lemma equalObjects_keys_differ equalFunc object other :
  NoDup (keys object) →
  ¬ (∀ k, k ∈ keys object ↔ k ∈ keys other) →
  equalObjects equalFunc object other = Some false.
Proof.
  intros Hnd Hdiff. unfold equalObjects.
  destruct (length (keys object) =? length (keys other))%nat eqn:Hlen;
    [|done]. simpl.
  destruct (forallb _ _) eqn:Hown; [|done]. exfalso. apply Hdiff.
  apply Nat.eqb_eq in Hlen.
  apply keys_same_set; [done|done|]. by apply forallb_has_own.
Qed.

(** A property name that only one of the two non-callable partitions has
    makes [shouldUpdate] return [false], and nothing is thrown, whichever
    side has it. *)
Theorem one_sided_property_false fuel h prevProps nextProps prev0 prev next k :
  own_props h prevProps = Some prev0 →
  is_nullish (get_field "options" prev0) = false →
  own_props (after_delete h prev0) prevProps = Some prev →
  own_props (after_delete h prev0) nextProps = Some next →
  NoDup (keys prev) →
  ((k ∈ keys (non_callable (after_delete h prev0) prev)
    ∧ (k ∉ keys (non_callable (after_delete h prev0) next)))
   ∨ ((k ∉ keys (non_callable (after_delete h prev0) prev))
      ∧ k ∈ keys (non_callable (after_delete h prev0) next))) →
  shouldUpdate (S fuel) h prevProps nextProps
  = Some (after_delete h prev0, Normal false).
Proof.
  intros Hp Hopt Hp' Hn' Hnd Hone.
  rewrite (shouldUpdate_compares _ _ _ _ _ _ _ Hp Hopt Hp' Hn'). cbv zeta.
  simpl isEqual_fresh. rewrite equalObjects_keys_differ; [done| |].
  - by apply NoDup_keys_omit.
  - intros Hsame. destruct Hone as [[Hin Hout]|[Hout Hin]];
      apply Hout; by apply Hsame.
Qed.

Lemma one_sided_property_false_witness :
  shouldUpdate 1 page_store 9 4
  = Some (after_delete page_store [("options", VRef 3)], Normal false).
Proof.
  apply (one_sided_property_false 0 page_store 9 4
           [("options", VRef 3)] [("options", VRef 3)]
           [("lat", VNum 48); ("lng", VNum 8)] "options").
  - vm_compute. reflexivity.
  - vm_compute. reflexivity.
  - vm_compute. reflexivity.
  - vm_compute. reflexivity.
  - apply (bool_decide_unpack _). vm_compute. exact I.
  - left. split; apply (bool_decide_unpack _); vm_compute; exact I.
Defined.

Lemma baseIsEqual_primitive fuel h a b :
  (∀ l, a ≠ VRef l) →
  strict_eq a b = true ∨ baseIsEqual fuel h a b = Some true → a = b.
Proof.
  intros Ha [Hs|He]; [by apply strict_eq_true|].
  destruct fuel as [|fuel]; [done|]. rewrite baseIsEqual_unfold in He.
  destruct (strict_eq a b) eqn:Hs; [by apply strict_eq_true|].
  destruct a as [| | | | | |l]; try done; [|by destruct (Ha l)].
  by destruct b.
Qed.

(** Sensitivity to a leaf: in a store without cycles, when a property of
    the previous set holds a primitive and the next set holds another
    value under that name, [shouldUpdate] returns [false]. *)
Theorem primitive_change_false rk h prevProps nextProps prev next k :
  ranked rk h →
  own_props h prevProps = Some prev →
  is_nullish (get_field "options" prev) = false →
  own_props (after_delete h prev) nextProps = Some next →
  k ∈ keys prev →
  (∀ l, get_field k prev ≠ VRef l) →
  get_field k next ≠ get_field k prev →
  ∀ fuel, (rk prevProps + 2 ≤ fuel)%nat →
    shouldUpdate fuel h prevProps nextProps
    = Some (after_delete h prev, Normal false).
Proof.
  intros Hr Hp Hopt Hn' Hk Hprim Hdiff fuel Hfuel.
  pose proof (ranked_options_apart _ _ _ _ Hr Hp Hopt) as Hnp.
  assert (own_props (after_delete h prev) prevProps = Some prev) as Hp'.
  { rewrite (own_props_after_delete _ _ _ _ Hp). by rewrite decide_False. }
  rewrite (shouldUpdate_compares _ _ _ _ _ _ _ Hp Hopt Hp' Hn'). cbv zeta.
  set (h' := after_delete h prev) in *.
  assert (ranked rk h') as Hr' by apply ranked_delete_property, Hr.
  destruct (isEqual_fresh_total rk h' (rk prevProps)
              (non_callable h' prev) (non_callable h' next) Hr')
    as [b0 Hb0].
  { intros x Hx%children_omit.
    apply (ranked_children rk h prevProps (OPlain prev)); [done| |done].
    by apply own_props_lookup. }
  rewrite (isEqual_fresh_mono (S (S (rk prevProps))) fuel _ _ _ b0)
    by (done || lia).
  destruct b0; [exfalso|done]. simpl in Hb0.
  apply equalObjects_true in Hb0 as (_ & Hsub & Hval).
  assert (k ∈ keys (non_callable h' prev)) as Hin.
  { apply non_callable_keys. split; [done|].
    destruct (get_field k prev) as [| | | | | |l]; try done.
    by destruct (Hprim l). }
  assert (get_field k (non_callable h' prev) = get_field k prev) as Hgp
    by (by apply non_callable_get).
  assert (get_field k (non_callable h' next) = get_field k next) as Hgn
    by (by apply non_callable_get, Hsub).
  apply Hdiff. symmetry. rewrite <- Hgp, <- Hgn.
  apply (baseIsEqual_primitive (S (rk prevProps)) h'); [by rewrite Hgp|].
  by apply Hval.
Qed.

Lemma primitive_change_false_witness :
  shouldUpdate 2 page_store 13 12 = Some (page_store, Normal false).
Proof.
  apply (primitive_change_false page_rank page_store 13 12
           [("options", VNum 5)] [("options", VNull)] "options").
  - apply (bool_decide_unpack _). vm_compute. exact I.
  - vm_compute. reflexivity.
  - vm_compute. reflexivity.
  - vm_compute. reflexivity.
  - apply (bool_decide_unpack _). vm_compute. exact I.
  - intros l. vm_compute. discriminate.
  - vm_compute. discriminate.
  - vm_compute. lia.
Defined.

(** ** The loader, mount after mount *)

Lemma Map_effect_loading_page api_key h v p :
  google p = false →
  Map_effect api_key h v p =
  ({| google := false;
      scripts := scripts p ++
        ["https://maps.googleapis.com/maps/api/js?key=" ++ api_key];
      listeners := listeners p ++ [(length (scripts p), v)];
      actions := actions p |},
   Some (length (scripts p), v)).
Proof. intros Hg. unfold Map_effect. by rewrite Hg. Qed.

Lemma listeners_fresh_script p v :
  page_ok p → filter (λ l', l' ≠ (length (scripts p), v)) (listeners p) = listeners p.
Proof.
  unfold page_ok. induction (listeners p) as [|l ls IH]; [done|].
  intros [Hl Hls]%Forall_cons. rewrite filter_cons_True.
  - by rewrite IH.
  - intros ->. simpl in Hl. lia.
Qed.

(** Every view mounted while [window.google] is still undefined appends a
    script and registers a listener of its own; nothing is built yet. *)
Theorem mounts_before_load api_key h views p :
  google p = false →
  loads (mount_all api_key h views p) = (loads p + length views)%nat
  ∧ length (listeners (mount_all api_key h views p))
    = (length (listeners p) + length views)%nat
  ∧ google (mount_all api_key h views p) = false
  ∧ actions (mount_all api_key h views p) = actions p.
Proof.
  revert p. unfold mount_all.
  induction views as [|v views IH]; intros p Hg; simpl.
  - split_and!; (done || lia).
  - destruct (Map_effect_loading api_key h v p Hg) as (Hl & Hg' & Ha).
    destruct (IH (mount api_key h v p) Hg') as (IHl & IHn & IHg & IHa).
    rewrite IHl, IHn, IHg, IHa, Hl, Ha. split_and!; try done; try lia.
    unfold mount. rewrite (Map_effect_loading_page _ _ _ _ Hg). simpl.
    rewrite length_app. simpl. lia.
Qed.

Lemma mounts_before_load_witness :
  loads (mount_all "key" page_store [first_view; second_view; first_view]
           blank_page) = (loads blank_page + 3)%nat
  ∧ length (listeners (mount_all "key" page_store
                         [first_view; second_view; first_view] blank_page))
    = (length (listeners blank_page) + 3)%nat
  ∧ google (mount_all "key" page_store [first_view; second_view; first_view]
              blank_page) = false
  ∧ actions (mount_all "key" page_store [first_view; second_view; first_view]
               blank_page) = actions blank_page.
Proof.
  apply (mounts_before_load "key" page_store
           [first_view; second_view; first_view] blank_page).
  reflexivity.
Defined.

Lemma mount_loaded_page api_key h v p :
  google p = true → mount api_key h v p = onLoad h v p.
Proof. intros Hg. unfold mount, Map_effect. by rewrite Hg. Qed.

(** Once [window.google] is defined, mounting any number of views appends
    no script and registers no listener, and the map of each view is built
    in the mount itself. *)
Theorem mounts_after_load api_key h views p :
  google p = true →
  scripts (mount_all api_key h views p) = scripts p
  ∧ listeners (mount_all api_key h views p) = listeners p
  ∧ (∀ a, a ∈ actions p → a ∈ actions (mount_all api_key h views p))
  ∧ (∀ v, v ∈ views →
       NewMap (view_id v) ∈ actions (mount_all api_key h views p)).
Proof.
  revert p. unfold mount_all.
  induction views as [|v views IH]; intros p Hg; simpl.
  - split_and!; try done. by intros v ?%elem_of_nil.
  - rewrite (mount_loaded_page _ _ _ _ Hg).
    destruct (IH (onLoad h v p) Hg) as (IHs & IHl & IHa & IHn).
    rewrite IHs, IHl. split_and!; try done.
    + intros a Ha. apply IHa. simpl. apply elem_of_app. by left.
    + intros v' [->|Hv']%elem_of_cons; [|by apply IHn].
      apply IHa. simpl. apply elem_of_app. right. left.
Qed.

Lemma mounts_after_load_witness :
  scripts (mount_all "key" page_store [first_view; second_view]
             (script_load page_store 0 (mount "key" page_store first_view
                                          blank_page)))
  = scripts (script_load page_store 0 (mount "key" page_store first_view
                                         blank_page))
  ∧ NewMap 1 ∈ actions (mount_all "key" page_store [first_view; second_view]
                          (script_load page_store 0
                             (mount "key" page_store first_view blank_page))).
Proof.
  destruct (mounts_after_load "key" page_store [first_view; second_view]
              (script_load page_store 0
                 (mount "key" page_store first_view blank_page)))
    as (Hs & _ & _ & Hn); [reflexivity|].
  split; [exact Hs|]. apply (Hn second_view). right. left.
Defined.

(** ** The clean-up *)

Lemma cleanup_restores_listeners_aux api_key h v p :
  page_ok p → google p = false →
  listeners (Map_cleanup (Map_effect api_key h v p).2
               (Map_effect api_key h v p).1) = listeners p
  ∧ actions (Map_cleanup (Map_effect api_key h v p).2
               (Map_effect api_key h v p).1) = actions p.
Proof.
  intros Hok Hg. rewrite (Map_effect_loading_page _ _ _ _ Hg). simpl.
  split; [|done].
  rewrite filter_app, (listeners_fresh_script _ _ Hok).
  rewrite filter_cons_False by (simpl; auto). simpl. by rewrite app_nil_r.
Qed.

(** Unmounting before the load takes back exactly the listener that the
    mount registered and leaves the script in the document. *)
Theorem cleanup_restores_listeners api_key h v p :
  page_ok p → google p = false →
  listeners (Map_cleanup (Map_effect api_key h v p).2
               (Map_effect api_key h v p).1) = listeners p
  ∧ loads (Map_cleanup (Map_effect api_key h v p).2
             (Map_effect api_key h v p).1) = S (loads p).
Proof.
  intros Hok Hg. rewrite (Map_effect_loading_page _ _ _ _ Hg). simpl.
  unfold loads. simpl. rewrite length_app. simpl. split; [|lia].
  rewrite filter_app, (listeners_fresh_script _ _ Hok).
  rewrite filter_cons_False by (simpl; auto). simpl. by rewrite app_nil_r.
Qed.

Lemma cleanup_restores_listeners_witness :
  listeners (Map_cleanup
               (Map_effect "key" page_store second_view
                  (mount "key" page_store first_view blank_page)).2
               (Map_effect "key" page_store second_view
                  (mount "key" page_store first_view blank_page)).1)
  = listeners (mount "key" page_store first_view blank_page)
  ∧ loads (Map_cleanup
             (Map_effect "key" page_store second_view
                (mount "key" page_store first_view blank_page)).2
             (Map_effect "key" page_store second_view
                (mount "key" page_store first_view blank_page)).1)
    = S (loads (mount "key" page_store first_view blank_page)).
Proof.
  apply (cleanup_restores_listeners "key" page_store second_view
           (mount "key" page_store first_view blank_page)).
  - apply (bool_decide_unpack _). vm_compute. exact I.
  - reflexivity.
Defined.

(** ** The load event *)

Lemma script_load_skip h script p0 ls :
  Forall (λ l : nat * view, l.1 ≠ script) ls →
  foldl (λ p' l, if decide (l.1 = script) then onLoad h l.2 p' else p') p0 ls
  = p0.
Proof.
  revert p0. induction ls as [|l ls IH]; intros p0; [done|].
  intros [Hl Hls]%Forall_cons. simpl. rewrite decide_False by done.
  by apply IH.
Qed.

Lemma page_ok_other_scripts p :
  page_ok p → Forall (λ l : nat * view, l.1 ≠ length (scripts p)) (listeners p).
Proof.
  unfold page_ok. intros Hok. eapply Forall_impl; [exact Hok|].
  intros l Hl. simpl in *. lia.
Qed.

(** A view mounted before the load gets its map when its script loads:
    one map is built, and [onMount] is called exactly when it is a
    function. *)
Theorem load_after_mount api_key h v p :
  page_ok p → google p = false →
  actions (script_load h (length (scripts p)) (mount api_key h v p))
  = (actions p ++ NewMap (view_id v) ::
       (if is_function h (get_field "onMount" (view_props v))
        then [CallOnMount (view_id v)] else []))%list
  ∧ google (script_load h (length (scripts p)) (mount api_key h v p)) = true.
Proof.
  intros Hok Hg. unfold mount, script_load.
  rewrite (Map_effect_loading_page _ _ _ _ Hg). simpl.
  rewrite foldl_app. simpl. rewrite decide_True by done.
  rewrite script_load_skip by (by apply page_ok_other_scripts). done.
Qed.

Lemma load_after_mount_witness :
  actions (script_load page_store (length (scripts blank_page))
             (mount "key" page_store first_view blank_page))
  = (actions blank_page ++ NewMap (view_id first_view) ::
       (if is_function page_store
             (get_field "onMount" (view_props first_view))
        then [CallOnMount (view_id first_view)] else []))%list
  ∧ google (script_load page_store (length (scripts blank_page))
              (mount "key" page_store first_view blank_page)) = true.
Proof.
  apply (load_after_mount "key" page_store first_view blank_page).
  - apply (bool_decide_unpack _). vm_compute. exact I.
  - reflexivity.
Defined.

(** A view unmounted before the load is left alone when its script loads:
    no map is built for it and its [onMount] is not called. *)
Theorem load_after_unmount api_key h v p :
  page_ok p → google p = false →
  actions (script_load h (length (scripts p))
             (Map_cleanup (Map_effect api_key h v p).2
                (Map_effect api_key h v p).1))
  = actions p.
Proof.
  intros Hok Hg. unfold script_load.
  destruct (cleanup_restores_listeners_aux api_key h v p Hok Hg) as [-> Ha].
  rewrite script_load_skip by (by apply page_ok_other_scripts). simpl.
  exact Ha.
Qed.

Lemma load_after_unmount_witness :
  actions (script_load page_store
             (length (scripts (mount "key" page_store first_view blank_page)))
             (Map_cleanup
                (Map_effect "key" page_store second_view
                   (mount "key" page_store first_view blank_page)).2
                (Map_effect "key" page_store second_view
                   (mount "key" page_store first_view blank_page)).1))
  = actions (mount "key" page_store first_view blank_page).
Proof.
  apply (load_after_unmount "key" page_store second_view
           (mount "key" page_store first_view blank_page)).
  - apply (bool_decide_unpack _). vm_compute. exact I.
  - reflexivity.
Defined.

(** When [onMount] or [options] changes before the load, the effect runs
    again: a second script is appended, and the only listener left for the
    view sits on that second script. *)
Theorem rerun_before_load api_key h v v' p :
  page_ok p → google p = false →
  loads (Map_rerun api_key h (Map_effect api_key h v p).2 v'
           (Map_effect api_key h v p).1).1 = (loads p + 2)%nat
  ∧ listeners (Map_rerun api_key h (Map_effect api_key h v p).2 v'
                 (Map_effect api_key h v p).1).1
    = (listeners p ++ [(S (length (scripts p)), v')])%list.
Proof.
  intros Hok Hg. unfold Map_rerun.
  destruct (cleanup_restores_listeners_aux api_key h v p Hok Hg) as [Hl _].
  set (p1 := Map_cleanup _ _) in *.
  assert (google p1 = false ∧ length (scripts p1) = S (length (scripts p)))
    as [Hg1 Hs1].
  { unfold p1. rewrite (Map_effect_loading_page _ _ _ _ Hg). simpl.
    rewrite length_app. simpl. split; [done|lia]. }
  rewrite (Map_effect_loading_page _ _ _ _ Hg1). unfold loads. simpl.
  rewrite Hl, length_app, Hs1. simpl. split; [lia|done].
Qed.

Lemma rerun_before_load_witness :
  loads (Map_rerun "key" page_store
           (Map_effect "key" page_store first_view blank_page).2 second_view
           (Map_effect "key" page_store first_view blank_page).1).1
  = (loads blank_page + 2)%nat
  ∧ listeners (Map_rerun "key" page_store
                 (Map_effect "key" page_store first_view blank_page).2
                 second_view
                 (Map_effect "key" page_store first_view blank_page).1).1
    = (listeners blank_page
       ++ [(S (length (scripts blank_page)), second_view)])%list.
Proof.
  apply (rerun_before_load "key" page_store first_view second_view blank_page).
  - apply (bool_decide_unpack _). vm_compute. exact I.
  - reflexivity.
Defined.

Lemma script_load_keeps h script p0 ls :
  scripts (foldl (λ p' l, if decide (l.1 = script) then onLoad h l.2 p' else p')
             p0 ls) = scripts p0
  ∧ listeners (foldl (λ p' (l : nat * view),
                        if decide (l.1 = script) then onLoad h l.2 p' else p')
                 p0 ls) = listeners p0.
Proof.
  revert p0. induction ls as [|l ls IH]; intros p0; [done|]. simpl.
  case_decide; [|apply IH].
  destruct (IH (onLoad h l.2 p0)) as [-> ->]. done.
Qed.

(** The effect, its clean-up and the load event keep every listener on a
    script that is in the document. *)
Theorem page_ok_kept api_key h v c script p :
  page_ok p →
  page_ok (Map_effect api_key h v p).1
  ∧ page_ok (Map_cleanup c p)
  ∧ page_ok (script_load h script p).
Proof.
  intros Hok. split_and!.
  - unfold Map_effect, page_ok. destruct (negb (google p)); simpl; [|done].
    rewrite length_app. simpl. apply Forall_app. split.
    + eapply Forall_impl; [exact Hok|]. intros l Hl. simpl in *. lia.
    + apply Forall_singleton. simpl. lia.
  - unfold page_ok. destruct c as [l|]; simpl; [|done].
    unfold page_ok in Hok. rewrite Forall_forall in Hok.
    apply Forall_forall. intros l' [_ Hl']%list_elem_of_filter. by apply Hok.
  - unfold page_ok, script_load.
    destruct (script_load_keeps h script
                {| google := true; scripts := scripts p;
                   listeners := listeners p; actions := actions p |}
                (listeners p)) as [-> ->]. done.
Qed.

Lemma page_ok_kept_witness :
  page_ok (Map_effect "key" page_store first_view blank_page).1
  ∧ page_ok (Map_cleanup (Some (0, first_view)) blank_page)
  ∧ page_ok (script_load page_store 0 blank_page).
Proof.
  apply (page_ok_kept "key" page_store first_view (Some (0, first_view)) 0
           blank_page).
  apply (bool_decide_unpack _). vm_compute. exact I.
Defined.

(** ** The content box *)

Lemma get_member_nullish h base k :
  is_nullish base = true → get_member h base k = Throw (TypeError k).
Proof. by destruct base. Qed.

Lemma get_member_Normal h base k :
  is_nullish base = false → ∃ v, get_member h base k = Normal v.
Proof.
  destruct base as [| | | | | |l]; simpl; try done; eauto.
  destruct (h !! l) as [[]|]; eauto.
Qed.

(** The sizes of [ModelDiv]: a truthy [maxWidth] or [maxHeight] of the
    caller is used as it is; a falsy one, such as [0], the empty string or
    none, gives way to the [maxWidth] of the theme and to [80vh], so that
    the maximal height is never empty. *)
Theorem ModelDiv_sizes h props vs :
  ModelDiv h props = Normal vs →
  truthy (max_height vs) = true
  ∧ (truthy (get_field "maxWidth" props) = true →
     max_width vs = get_field "maxWidth" props)
  ∧ (truthy (get_field "maxWidth" props) = false →
     get_member h (get_field "theme" props) "maxWidth" = Normal (max_width vs))
  ∧ (truthy (get_field "maxHeight" props) = true →
     max_height vs = get_field "maxHeight" props)
  ∧ (truthy (get_field "maxHeight" props) = false →
     max_height vs = VStr "80vh").
Proof.
  unfold ModelDiv, ModelDiv_maxWidth, ModelDiv_maxHeight.
  destruct (ModelDiv_background h props); [|done].
  destruct (truthy (get_field "maxWidth" props)) eqn:Hw.
  - destruct (ModelDiv_borderRadius h props); [|done].
    destruct (ModelDiv_boxShadow h props); [|done].
    intros [= <-]. simpl.
    destruct (truthy (get_field "maxHeight" props)) eqn:Hh; by split_and!.
  - destruct (get_member h (get_field "theme" props) "maxWidth"); [|done].
    destruct (ModelDiv_borderRadius h props); [|done].
    destruct (ModelDiv_boxShadow h props); [|done].
    intros [= <-]. simpl.
    destruct (truthy (get_field "maxHeight" props)) eqn:Hh; by split_and!.
Qed.

Lemma ModelDiv_sizes_witness :
  ModelDiv tutorial_store [("theme", VRef 1); ("maxHeight", VNum 0)]
  = Normal {| background := VStr "#fff"; max_width := VStr "50em";
              max_height := VStr "80vh"; border_radius := VStr "0.5em";
              box_shadow := VStr "#111" |}
  ∧ truthy (VStr "80vh") = true.
Proof.
  assert (ModelDiv tutorial_store [("theme", VRef 1); ("maxHeight", VNum 0)]
          = Normal {| background := VStr "#fff"; max_width := VStr "50em";
                      max_height := VStr "80vh"; border_radius := VStr "0.5em";
                      box_shadow := VStr "#111" |}) as Hrun
    by (vm_compute; reflexivity).
  split; [exact Hrun|].
  exact (proj1 (ModelDiv_sizes tutorial_store _ _ Hrun)).
Defined.

(** ** [addMarkers] *)

Lemma addMarker_Normal h map link index :
  is_nullish link = false →
  ∃ m, addMarker h map link index = Normal m
       ∧ marker_map m = map
       ∧ marker_label m = pretty (index + 1)%nat
       ∧ marker_link m = link
       ∧ get_member h link "coords" = Normal (marker_position m)
       ∧ get_member h link "title" = Normal (marker_title m).
Proof.
  intros Hl. unfold addMarker.
  destruct (get_member_Normal h link "coords" Hl) as [pos ->].
  destruct (get_member_Normal h link "title" Hl) as [title ->].
  eexists. split_and!; done.
Qed.

Lemma addMarkers_from_all h map index links :
  Forall (λ link, is_nullish link = false) links →
  ∃ ms, addMarkers_from h map index links = (ms, None)
        ∧ length ms = length links
        ∧ ∀ j m, ms !! j = Some m →
            marker_label m = pretty (index + j + 1)%nat
            ∧ marker_map m = map
            ∧ links !! j = Some (marker_link m)
            ∧ get_member h (marker_link m) "coords" = Normal (marker_position m)
            ∧ get_member h (marker_link m) "title" = Normal (marker_title m).
Proof.
  revert index. induction links as [|link links IH]; intros index Hall.
  { exists []. by split_and!. }
  apply Forall_cons in Hall as [Hl Hall].
  destruct (addMarker_Normal h map link index Hl)
    as (m0 & Hm0 & Hmap & Hlabel & Hlink & Hpos & Htitle).
  destruct (IH (S index) Hall) as (ms & Hms & Hlen & Hrest).
  exists (m0 :: ms). simpl. rewrite Hm0, Hms. split_and!; [done|by rewrite Hlen|].
  intros [|j] m; simpl.
  - intros [= <-]. rewrite Nat.add_0_r, Hlink. by split_and!.
  - intros Hj. destruct (Hrest j m Hj) as (Hlab & ?).
    split; [|done]. rewrite Hlab. f_equal. lia.
Qed.

(** With links that are all objects, [addMarkers] throws nothing and puts
    one marker per link on the map it is given, in the order of the
    links: the marker of the link at index [j] is labelled [j + 1] and
    holds the coordinates and the title of that link; no two markers share
    a label. *)
Theorem addMarkers_one_per_link h links map :
  Forall (λ link, is_nullish link = false) links →
  ∃ ms, addMarkers h links map = (ms, None)
        ∧ length ms = length links
        ∧ NoDup (marker_label <$> ms)
        ∧ ∀ j m, ms !! j = Some m →
            marker_label m = pretty (j + 1)%nat
            ∧ marker_map m = map
            ∧ links !! j = Some (marker_link m)
            ∧ get_member h (marker_link m) "coords" = Normal (marker_position m)
            ∧ get_member h (marker_link m) "title" = Normal (marker_title m).
Proof.
  intros Hall. unfold addMarkers.
  destruct (addMarkers_from_all h map 0 links Hall) as (ms & Hms & Hlen & Hj).
  exists ms. split_and!; [done|done| |done].
  apply NoDup_alt. intros i j label Hi Hj'.
  rewrite list_lookup_fmap in Hi, Hj'.
  destruct (ms !! i) as [mi|] eqn:Hmi; [|done].
  destruct (ms !! j) as [mj|] eqn:Hmj; [|done].
  simpl in Hi, Hj'. injection Hi as Hi. injection Hj' as Hj'.
  destruct (Hj i mi Hmi) as [Hli _]. destruct (Hj j mj Hmj) as [Hlj _].
  simpl in Hli, Hlj. rewrite Hli in Hi. rewrite Hlj in Hj'. subst label.
  apply (inj pretty) in Hj'. lia.
Qed.

Lemma addMarkers_one_per_link_witness :
  ∃ ms, addMarkers tutorial_store [VRef 2; VRef 4] 7 = (ms, None)
        ∧ length ms = 2%nat
        ∧ marker_label <$> ms = ["1"; "2"].
Proof.
  destruct (addMarkers_one_per_link tutorial_store [VRef 2; VRef 4] 7)
    as (ms & Hms & Hlen & _ & _).
  - repeat constructor.
  - exists ms. split_and!; [done|done|].
    vm_compute in Hms. injection Hms as <-. reflexivity.
Defined.

Lemma addMarkers_from_stop h map index good bad rest :
  Forall (λ link, is_nullish link = false) good →
  is_nullish bad = true →
  addMarkers_from h map index (good ++ bad :: rest)
  = ((addMarkers_from h map index good).1, Some (TypeError "coords")).
Proof.
  intros Hgood Hbad. revert index.
  induction good as [|link good IH]; intros index; simpl.
  - unfold addMarker. by rewrite get_member_nullish.
  - apply Forall_cons in Hgood as [Hl Hgood].
    destruct (addMarker_Normal h map link index Hl) as (m0 & -> & _).
    rewrite (IH Hgood).
    by destruct (addMarkers_from h map (S index) good).
Qed.

(** A link that is [undefined] or [null] ends [addMarkers] with a
    [TypeError] on reading [coords]; the markers of the links before it
    have been put on the map by then, those of the links after it are
    never made. *)
Theorem addMarkers_stops_at_null h map good bad rest :
  Forall (λ link, is_nullish link = false) good →
  is_nullish bad = true →
  addMarkers h (good ++ bad :: rest) map
  = ((addMarkers h good map).1, Some (TypeError "coords"))
  ∧ length (addMarkers h (good ++ bad :: rest) map).1 = length good.
Proof.
  intros Hgood Hbad. unfold addMarkers.
  rewrite (addMarkers_from_stop _ _ _ _ _ _ Hgood Hbad). split; [done|].
  destruct (addMarkers_from_all h map 0 good Hgood) as (ms & -> & Hlen & _).
  done.
Qed.

Lemma addMarkers_stops_at_null_witness :
  addMarkers tutorial_store ([VRef 2] ++ VUndefined :: [VRef 4]) 7
  = ((addMarkers tutorial_store [VRef 2] 7).1, Some (TypeError "coords"))
  ∧ length (addMarkers tutorial_store ([VRef 2] ++ VUndefined :: [VRef 4]) 7).1
    = length [VRef 2].
Proof.
  apply (addMarkers_stops_at_null tutorial_store 7 [VRef 2] VUndefined [VRef 4]).
  - repeat constructor.
  - reflexivity.
Defined.

(** ** The content box, with its theme *)

(** On the properties styled-components hands over, with a [theme] that
    is an object, no interpolation of [ModelDiv] throws, whatever the
    other properties are and whatever keys the theme has. *)
Theorem ModelDiv_with_theme h props :
  is_nullish (get_field "theme" props) = false →
  ∃ vs, ModelDiv h props = Normal vs.
Proof.
  intros Ht. unfold ModelDiv, ModelDiv_background, ModelDiv_maxWidth,
    ModelDiv_borderRadius, ModelDiv_boxShadow.
  destruct (get_member_Normal h _ "white" Ht) as [bg ->].
  destruct (get_member_Normal h _ "maxWidth" Ht) as [mw ->].
  destruct (get_member_Normal h _ "mediumBorderRadius" Ht) as [br ->].
  destruct (get_member_Normal h _ "black" Ht) as [bs ->].
  destruct (truthy (get_field "maxWidth" props)); eauto.
Qed.

Lemma ModelDiv_with_theme_witness :
  ∃ vs, ModelDiv tutorial_store [("theme", VRef 1); ("maxWidth", VStr "30em")]
        = Normal vs.
Proof.
  apply (ModelDiv_with_theme tutorial_store
           [("theme", VRef 1); ("maxWidth", VStr "30em")]).
  reflexivity.
Defined.

(** * The comparison on stores without cycles *)

(** After a successful comparison of the partitions, the comparison of
    the callables completes: with a [true], a [false] or a throw. *)
Lemma every_same_source_is_Some fuel h prev next :
  NoDup (keys prev) →
  isEqual_fresh fuel h (non_callable h prev) (non_callable h next) = Some true →
  is_Some (every (same_source h prev next) (functions h prev)).
Proof.
  intros Hnd He.
  assert (∀ fns, (∀ fn, fn ∈ fns → fn ∈ functions h prev) →
                 is_Some (every (same_source h prev next) fns)) as Hall;
    [|by apply Hall].
  induction fns as [|fn fns IH]; intros Hsub; simpl; [done|].
  assert (is_Some (same_source h prev next fn)) as [c Hc].
  { pose proof (Hsub fn ltac:(by left)) as Hfn.
    destruct (every_reaches_functions _ _ _ _ _ Hnd He Hfn) as [Hno|Hf2].
    - apply elem_of_functions in Hfn as [_ Hf1].
      apply source_text_is_function in Hf1 as [t1 Ht1%toString_Normal].
      unfold same_source. rewrite Ht1, (get_field_absent _ _ Hno). done.
    - apply elem_of_functions in Hfn as [_ Hf1].
      apply source_text_is_function in Hf1 as [t1 Ht1].
      apply source_text_is_function in Hf2 as [t2 Ht2].
      by rewrite (same_source_texts _ _ _ _ _ _ Ht1 Ht2). }
  rewrite Hc. destruct c as [[]|]; [|done|done].
  apply IH. intros fn' Hfn'. apply Hsub. by right.
Qed.

(** When every callable name of the previous set is a property name of
    the next one, the comparison of the callables ends with a boolean. *)
Lemma every_same_source_boolean fuel h prev next :
  NoDup (keys prev) →
  isEqual_fresh fuel h (non_callable h prev) (non_callable h next) = Some true →
  (∀ fn, fn ∈ functions h prev → fn ∈ keys next) →
  ∃ b : bool,
    every (same_source h prev next) (functions h prev) = Some (Normal b).
Proof.
  intros Hnd He Hkeys.
  set (test := λ fn,
    match source_text h (get_field fn prev),
          source_text h (get_field fn next) with
    | Some t1, Some t2 => String.eqb t1 t2
    | _, _ => false
    end).
  exists (forallb test (functions h prev)). apply every_Normal.
  intros fn Hfn.
  destruct (every_reaches_functions _ _ _ _ _ Hnd He Hfn) as [Hno|Hf2];
    [by destruct Hno; apply Hkeys|].
  apply elem_of_functions in Hfn as [_ Hf1].
  apply source_text_is_function in Hf1 as [t1 Ht1].
  apply source_text_is_function in Hf2 as [t2 Ht2].
  unfold test. rewrite Ht1, Ht2. by apply same_source_texts.
Qed.

(** The first comparison on a store without cycles: one completion for
    every fuel above the depth of the previous set, [true] exactly on
    deeply equal partitions with callables of one text, [false] on
    partitions that differ, and a boolean whenever every callable name of
    the previous set is a property name of the next one. *)
Lemma shouldUpdate_plain_result rk h prevProps nextProps prev next :
  ranked rk h → heap_ok h →
  own_props h prevProps = Some prev →
  own_props h nextProps = Some next →
  ∃ r,
    (∀ fuel, (rk prevProps + 2 ≤ fuel)%nat →
       shouldUpdate_plain fuel h prevProps nextProps = Some r)
    ∧ (r = Normal true ↔
       deep_equal_props h (non_callable h prev) (non_callable h next)
       ∧ same_callables h prev next)
    ∧ (¬ deep_equal_props h (non_callable h prev) (non_callable h next) →
       r = Normal false)
    ∧ ((∀ fn, fn ∈ functions h prev → fn ∈ keys next) →
       r = Normal true ∨ r = Normal false).
Proof.
  intros Hr Hok Hp Hn.
  pose proof (heap_ok_own_props _ _ _ Hok Hp) as Hndp.
  assert (NoDup (keys (non_callable h prev))) as Hdp
    by (by apply NoDup_keys_omit).
  assert (NoDup (keys (non_callable h next))) as Hdn.
  { apply NoDup_keys_omit. by eapply heap_ok_own_props. }
  destruct (isEqual_fresh_total rk h (rk prevProps)
              (non_callable h prev) (non_callable h next) Hr)
    as [b0 Hb0].
  { intros x Hx%children_omit.
    apply (ranked_children rk h prevProps (OPlain prev)); [done| |done].
    by apply own_props_lookup. }
  assert (∀ fuel, (rk prevProps + 2 ≤ fuel)%nat →
            shouldUpdate_plain fuel h prevProps nextProps
            = (if b0 then every (same_source h prev next) (functions h prev)
               else Some (Normal false))) as Hrun.
  { intros fuel Hfuel. unfold shouldUpdate_plain. rewrite Hp, Hn.
    cbn [mbind option_bind]. fold (non_callable h prev).
    fold (non_callable h next).
    rewrite (isEqual_fresh_mono (S (S (rk prevProps))) fuel _ _ _ b0)
      by (done || lia).
    by destruct b0. }
  destruct b0.
  - pose proof (isEqual_fresh_sound _ _ _ _ Hok Hdp Hb0) as Hde.
    destruct (every_same_source_is_Some _ _ _ _ Hndp Hb0) as [r Hev].
    exists r. split_and!.
    + intros fuel Hfuel. by rewrite Hrun.
    + split.
      * intros ->. split; [done|by apply every_same_source_true].
      * intros [_ Hsame]. apply every_same_source_true in Hsame.
        rewrite Hsame in Hev. by injection Hev as <-.
    + intros Hno. by destruct Hno.
    + intros Hkeys.
      destruct (every_same_source_boolean _ _ _ _ Hndp Hb0 Hkeys) as [b Hb].
      rewrite Hb in Hev. injection Hev as <-. destruct b; auto.
  - exists (Normal false). split_and!.
    + intros fuel Hfuel. by rewrite Hrun.
    + split; [done|]. intros [Hde _].
      by destruct (isEqual_fresh_refute _ _ _ _ Hok Hdp Hdn Hb0).
    + done.
    + by right.
Qed.

(** The first form of the comparison, on a store without cycles: it
    returns [true] exactly when the non-callable partitions are deeply
    equal and the callables of the previous set have one source text in
    both sets; it returns [false] when the partitions differ, and [false]
    whenever it does not return [true] and every callable name of the
    previous set is a property name of the next one. *)
Theorem shouldUpdate_plain_decides rk h prevProps nextProps prev next :
  ranked rk h → heap_ok h →
  own_props h prevProps = Some prev →
  own_props h nextProps = Some next →
  ∃ r,
    (∀ fuel, (rk prevProps + 2 ≤ fuel)%nat →
       shouldUpdate_plain fuel h prevProps nextProps = Some r)
    ∧ (r = Normal true ↔
       deep_equal_props h (non_callable h prev) (non_callable h next)
       ∧ same_callables h prev next)
    ∧ (¬ deep_equal_props h (non_callable h prev) (non_callable h next) →
       r = Normal false)
    ∧ ((∀ fn, fn ∈ functions h prev → fn ∈ keys next) →
       r = Normal true ∨ r = Normal false).
Proof. apply shouldUpdate_plain_result. Qed.

Lemma shouldUpdate_plain_decides_witness :
  ∃ r,
    (∀ fuel, (page_rank 10 + 2 ≤ fuel)%nat →
       shouldUpdate_plain fuel page_store 10 16 = Some r)
    ∧ (r = Normal true ↔
       deep_equal_props page_store
         (non_callable page_store [("options", VRef 11)])
         (non_callable page_store [("options", VRef 17)])
       ∧ same_callables page_store
           [("options", VRef 11)] [("options", VRef 17)])
    ∧ (¬ deep_equal_props page_store
           (non_callable page_store [("options", VRef 11)])
           (non_callable page_store [("options", VRef 17)]) →
       r = Normal false)
    ∧ ((∀ fn, fn ∈ functions page_store [("options", VRef 11)] →
              fn ∈ keys [("options", VRef 17)]) →
       r = Normal true ∨ r = Normal false).
Proof.
  apply (shouldUpdate_plain_decides page_rank page_store 10 16).
  - apply (bool_decide_unpack _). vm_compute. exact I.
  - apply (bool_decide_unpack _). vm_compute. exact I.
  - vm_compute. reflexivity.
  - vm_compute. reflexivity.
Defined.

(** ** The result of [shouldUpdate] *)

(** C1, as the code has it: on a store without cycles and for a previous
    set whose [options] is neither [undefined] nor [null], [shouldUpdate]
    returns [true] exactly when the non-callable partitions are deeply
    equal and every callable name of the previous set holds functions of
    one source text in both sets, all read in the store after
    [options.mapTypeId] was deleted from the previous set. Otherwise it
    returns [false]: always when the partitions differ, and whenever every
    callable name of the previous set is a property name of the next
    one. *)
Theorem shouldUpdate_true_exactly rk h prevProps nextProps prev next :
  ranked rk h → heap_ok h →
  own_props h prevProps = Some prev →
  is_nullish (get_field "options" prev) = false →
  own_props (after_delete h prev) nextProps = Some next →
  ∃ r,
    (∀ fuel, (rk prevProps + 2 ≤ fuel)%nat →
       shouldUpdate fuel h prevProps nextProps = Some (after_delete h prev, r))
    ∧ (r = Normal true ↔
       deep_equal_props (after_delete h prev)
         (non_callable (after_delete h prev) prev)
         (non_callable (after_delete h prev) next)
       ∧ same_callables (after_delete h prev) prev next)
    ∧ (¬ deep_equal_props (after_delete h prev)
           (non_callable (after_delete h prev) prev)
           (non_callable (after_delete h prev) next) →
       r = Normal false)
    ∧ ((∀ fn, fn ∈ functions (after_delete h prev) prev → fn ∈ keys next) →
       r = Normal true ∨ r = Normal false).
Proof.
  intros Hr Hok Hp Hopt Hn'.
  pose proof (ranked_options_apart _ _ _ _ Hr Hp Hopt) as Hnp.
  assert (own_props (after_delete h prev) prevProps = Some prev) as Hp'.
  { rewrite (own_props_after_delete _ _ _ _ Hp). by rewrite decide_False. }
  destruct (shouldUpdate_plain_result rk (after_delete h prev)
              prevProps nextProps prev next) as (r & Hrun & Hrest);
    [by apply ranked_delete_property|by apply heap_ok_delete_property
    |done|done|].
  exists r. split; [|exact Hrest].
  intros fuel Hfuel.
  rewrite (shouldUpdate_delete_then_plain _ _ _ _ _ Hp Hopt).
  by rewrite (Hrun fuel Hfuel).
Qed.

Lemma shouldUpdate_true_exactly_witness :
  ∃ r,
    (∀ fuel, (rebuilt_rank 1 + 2 ≤ fuel)%nat →
       shouldUpdate fuel rebuilt_store 1 2
       = Some (after_delete rebuilt_store
                 [("options", VRef 3); ("onMount", VRef 5)], r))
    ∧ (r = Normal true ↔
       deep_equal_props
         (after_delete rebuilt_store [("options", VRef 3); ("onMount", VRef 5)])
         (non_callable
            (after_delete rebuilt_store
               [("options", VRef 3); ("onMount", VRef 5)])
            [("options", VRef 3); ("onMount", VRef 5)])
         (non_callable
            (after_delete rebuilt_store
               [("options", VRef 3); ("onMount", VRef 5)])
            [("options", VRef 4); ("onMount", VRef 6)])
       ∧ same_callables
           (after_delete rebuilt_store
              [("options", VRef 3); ("onMount", VRef 5)])
           [("options", VRef 3); ("onMount", VRef 5)]
           [("options", VRef 4); ("onMount", VRef 6)])
    ∧ (¬ deep_equal_props
           (after_delete rebuilt_store
              [("options", VRef 3); ("onMount", VRef 5)])
           (non_callable
              (after_delete rebuilt_store
                 [("options", VRef 3); ("onMount", VRef 5)])
              [("options", VRef 3); ("onMount", VRef 5)])
           (non_callable
              (after_delete rebuilt_store
                 [("options", VRef 3); ("onMount", VRef 5)])
              [("options", VRef 4); ("onMount", VRef 6)]) →
       r = Normal false)
    ∧ ((∀ fn, fn ∈ functions
                (after_delete rebuilt_store
                   [("options", VRef 3); ("onMount", VRef 5)])
                [("options", VRef 3); ("onMount", VRef 5)] →
              fn ∈ keys [("options", VRef 4); ("onMount", VRef 6)]) →
       r = Normal true ∨ r = Normal false).
Proof.
  apply (shouldUpdate_true_exactly rebuilt_rank rebuilt_store 1 2).
  - apply (bool_decide_unpack _). vm_compute. exact I.
  - apply (bool_decide_unpack _). vm_compute. exact I.
  - vm_compute. reflexivity.
  - vm_compute. reflexivity.
  - vm_compute. reflexivity.
Defined.

(** C1 as it is worded fails in three ways. Two property sets with
    distinct [options] objects that both carry [mapTypeId] have deeply
    equal non-callable partitions and no callable, and [shouldUpdate]
    answers [false], because it deletes the field from the previous set
    alone. A property set with [null] for [options], compared with
    itself, makes it throw. A callable of the previous set that the next
    set lacks makes it throw where the wording asks for [false]. *)
Lemma equal_partitions_compare_false :
  (own_props page_store 10 = Some [("options", VRef 11)]
   ∧ own_props page_store 16 = Some [("options", VRef 17)]
   ∧ deep_equal_props page_store
       (non_callable page_store [("options", VRef 11)])
       (non_callable page_store [("options", VRef 17)])
   ∧ same_callables page_store [("options", VRef 11)] [("options", VRef 17)]
   ∧ ∀ fuel, shouldUpdate (3 + fuel) page_store 10 16
             = Some (after_delete page_store [("options", VRef 11)],
                     Normal false))
  ∧ (own_props page_store 12 = Some [("options", VNull)]
     ∧ ∀ fuel, shouldUpdate fuel page_store 12 12
               = Some (page_store, Throw (TypeError "mapTypeId")))
  ∧ (own_props page_store 14 = Some [("options", VRef 3); ("onMount", VRef 15)]
     ∧ own_props page_store 9 = Some [("options", VRef 3)]
     ∧ ∀ fuel, shouldUpdate (2 + fuel) page_store 14 9
               = Some (after_delete page_store
                         [("options", VRef 3); ("onMount", VRef 15)],
                       Throw (TypeError "toString"))).
Proof.
  split_and!.
  - vm_compute. reflexivity.
  - vm_compute. reflexivity.
  - apply (isEqual_fresh_sound 3).
    + apply (bool_decide_unpack _). vm_compute. exact I.
    + apply (bool_decide_unpack _). vm_compute. exact I.
    + vm_compute. reflexivity.
  - intros fn Hfn. vm_compute in Hfn. by apply elem_of_nil in Hfn.
  - intros fuel. apply shouldUpdate_mono with 3; [lia|].
    vm_compute. reflexivity.
  - vm_compute. reflexivity.
  - intros fuel. by apply shouldUpdate_throws with [("options", VNull)].
  - vm_compute. reflexivity.
  - vm_compute. reflexivity.
  - intros fuel. apply shouldUpdate_mono with 2; [lia|].
    vm_compute. reflexivity.
Qed.

(** ** Callables of one name *)

(** C2, as the code has it: on a store without cycles, with [options]
    neither [undefined] nor [null], when both sets hold a function under
    one name and all other properties are equal once [options.mapTypeId]
    is deleted from the previous set (deeply equal non-callables, one
    source text for every other callable), [shouldUpdate] returns whether
    the two source texts are the same string: [true] for one text,
    whatever each closure captures, and [false] for two texts, whatever
    the functions do. *)
Theorem shouldUpdate_callable_by_text rk h prevProps nextProps prev next
    fn text1 text2 :
  ranked rk h → heap_ok h →
  own_props h prevProps = Some prev →
  is_nullish (get_field "options" prev) = false →
  own_props (after_delete h prev) nextProps = Some next →
  fn ∈ keys prev →
  source_text h (get_field fn prev) = Some text1 →
  source_text h (get_field fn next) = Some text2 →
  deep_equal_props (after_delete h prev)
    (non_callable (after_delete h prev) prev)
    (non_callable (after_delete h prev) next) →
  (∀ fn', fn' ∈ functions h prev → fn' ≠ fn →
     ∃ text, source_text h (get_field fn' prev) = Some text
           ∧ source_text h (get_field fn' next) = Some text) →
  ∀ fuel, (rk prevProps + 2 ≤ fuel)%nat →
    shouldUpdate fuel h prevProps nextProps
    = Some (after_delete h prev, Normal (String.eqb text1 text2)).
Proof.
  intros Hr Hok Hp Hopt Hn' Hfn H1 H2 Hde Hothers fuel Hfuel.
  pose proof (ranked_options_apart _ _ _ _ Hr Hp Hopt) as Hnp.
  assert (own_props (after_delete h prev) prevProps = Some prev) as Hp'.
  { rewrite (own_props_after_delete _ _ _ _ Hp). by rewrite decide_False. }
  rewrite (shouldUpdate_compares _ _ _ _ _ _ _ Hp Hopt Hp' Hn'). cbv zeta.
  set (h' := after_delete h prev) in *.
  assert (ranked rk h') as Hr' by apply ranked_delete_property, Hr.
  assert (heap_ok h') as Hok' by apply heap_ok_delete_property, Hok.
  assert (NoDup (keys (non_callable h' prev))) as Hdp.
  { apply NoDup_keys_omit. by eapply heap_ok_own_props. }
  assert (NoDup (keys (non_callable h' next))) as Hdn.
  { apply NoDup_keys_omit. by eapply heap_ok_own_props. }
  destruct (isEqual_fresh_total rk h' (rk prevProps)
              (non_callable h' prev) (non_callable h' next) Hr')
    as [b0 Hb0].
  { intros x Hx%children_omit.
    apply (ranked_children rk h prevProps (OPlain prev)); [done| |done].
    by apply own_props_lookup. }
  destruct b0;
    [|by destruct (isEqual_fresh_refute _ _ _ _ Hok' Hdp Hdn Hb0)].
  rewrite (isEqual_fresh_mono (S (S (rk prevProps))) fuel _ _ _ true)
    by (done || lia).
  assert (∀ x, source_text h' x = source_text h x) as Hst.
  { intros x. apply source_text_delete_property. }
  assert (functions h' prev = functions h prev) as Hfs
    by apply functions_delete_property.
  rewrite (every_Normal _
    (λ fn', if decide (fn' = fn) then String.eqb text1 text2 else true)).
  { rewrite forallb_at; [done|]. rewrite Hfs. apply elem_of_functions.
    split; [done|]. apply source_text_is_function. by rewrite H1. }
  intros fn' Hfn'. rewrite Hfs in Hfn'.
  destruct (decide (fn' = fn)) as [->|Hne].
  - apply same_source_texts; by rewrite Hst.
  - destruct (Hothers fn' Hfn' Hne) as (t & Ht1 & Ht2).
    rewrite <- (String.eqb_refl t). apply same_source_texts; by rewrite Hst.
Qed.

Lemma shouldUpdate_callable_by_text_witness :
  (∀ fuel, (rebuilt_rank 1 + 2 ≤ fuel)%nat →
     shouldUpdate fuel rebuilt_store 1 2
     = Some (after_delete rebuilt_store
               [("options", VRef 3); ("onMount", VRef 5)],
             Normal (String.eqb addMarkers_text addMarkers_text)))
  ∧ (∀ fuel, (rebuilt_rank 1 + 2 ≤ fuel)%nat →
       shouldUpdate fuel rebuilt_store 1 9
       = Some (after_delete rebuilt_store
                 [("options", VRef 3); ("onMount", VRef 5)],
               Normal (String.eqb addMarkers_text "map => map.setZoom(4)"))).
Proof.
  assert (deep_equal_props
            (after_delete rebuilt_store
               [("options", VRef 3); ("onMount", VRef 5)])
            [("options", VRef 3)] [("options", VRef 4)]) as Hde.
  { apply (isEqual_fresh_sound 4).
    - apply (bool_decide_unpack _). vm_compute. exact I.
    - apply (bool_decide_unpack _). vm_compute. exact I.
    - vm_compute. reflexivity. }
  split.
  - apply (shouldUpdate_callable_by_text rebuilt_rank rebuilt_store 1 2
             [("options", VRef 3); ("onMount", VRef 5)]
             [("options", VRef 4); ("onMount", VRef 6)] "onMount").
    + apply (bool_decide_unpack _). vm_compute. exact I.
    + apply (bool_decide_unpack _). vm_compute. exact I.
    + vm_compute. reflexivity.
    + vm_compute. reflexivity.
    + vm_compute. reflexivity.
    + apply (bool_decide_unpack _). vm_compute. exact I.
    + vm_compute. reflexivity.
    + vm_compute. reflexivity.
    + exact Hde.
    + intros fn' Hfn' Hne. vm_compute in Hfn'.
      apply list_elem_of_singleton in Hfn'. by destruct Hne.
  - apply (shouldUpdate_callable_by_text rebuilt_rank rebuilt_store 1 9
             [("options", VRef 3); ("onMount", VRef 5)]
             [("options", VRef 4); ("onMount", VRef 10)] "onMount").
    + apply (bool_decide_unpack _). vm_compute. exact I.
    + apply (bool_decide_unpack _). vm_compute. exact I.
    + vm_compute. reflexivity.
    + vm_compute. reflexivity.
    + vm_compute. reflexivity.
    + apply (bool_decide_unpack _). vm_compute. exact I.
    + vm_compute. reflexivity.
    + vm_compute. reflexivity.
    + exact Hde.
    + intros fn' Hfn' Hne. vm_compute in Hfn'.
      apply list_elem_of_singleton in Hfn'. by destruct Hne.
Defined.

(** ** A callable that is dropped *)

(** C5 on the code: an update that drops [onMount] and keeps everything
    else, the [options] object included, makes [shouldUpdate] throw a
    [TypeError] from [nextProps[fn].toString()] where a boolean is
    due. *)
Theorem dropped_callable_throws :
  ranked page_rank page_store
  ∧ own_props page_store 14 = Some [("options", VRef 3); ("onMount", VRef 15)]
  ∧ own_props page_store 9 = Some [("options", VRef 3)]
  ∧ ∀ fuel, shouldUpdate (2 + fuel) page_store 14 9
            = Some (after_delete page_store
                      [("options", VRef 3); ("onMount", VRef 15)],
                    Throw (TypeError "toString")).
Proof.
  split_and!.
  - apply (bool_decide_unpack _). vm_compute. exact I.
  - vm_compute. reflexivity.
  - vm_compute. reflexivity.
  - intros fuel. apply shouldUpdate_mono with 2; [lia|].
    vm_compute. reflexivity.
Qed.
